(** * kapit: the request templating and execution engine (lib/exec.js)

    A shallow embedding of [lib/exec.js]: the template compiler
    ([compile]), the step dispatcher ([exports.step]), the HTTP runner
    ([exports.http]) and the OAuth runner ([exports.oauth],
    [exports.driver], [exports.oauthAuthorize]).

    The module talks to four collaborators that are not part of it:
    the Handlebars engine, Node's [url] module, the [request] HTTP
    transport and the selenium-webdriver session.  Each of them enters
    the development as an interface (a type class or a stub record); a
    small concrete instance of each is given further down so that the
    functions can be run on examples. *)

From Stdlib Require Import Ascii.
From stdpp Require Import base option list strings gmap pretty.

Open Scope string_scope.
Open Scope Z_scope.

(** ** JavaScript values

    The requests, contexts and responses handled by [exec.js] are JSON
    data loaded from the state file, plus [undefined], which is what a
    missing property reads as.  Objects keep their keys in insertion
    order, which is the order [_.mapValues] walks them in.  Numbers are
    opaque to the module except for the status code comparison, so an
    integer carrier is enough. *)

#[local] Unset Elimination Schemes.
Inductive value : Type :=
| VUndefined
| VNull
| VBool (b : bool)
| VNum (n : Z)
| VStr (s : string)
| VArr (items : list value)
| VObj (props : list (string * value)).
#[local] Set Elimination Schemes.

(** Thrown JavaScript exceptions. *)
Inductive exn : Type :=
| TypeError (msg : string)
| EngineError (template : string)
| JsError (msg : string).

(** A computation that returns or throws. *)
Inductive result (A : Type) : Type :=
| Ok (a : A)
| Throw (e : exn).
Arguments Ok {A} a.
Arguments Throw {A} e.

#[global] Instance result_ret : MRet result := λ A a, Ok a.
#[global] Instance result_bind : MBind result := λ A B f m,
  match m with Ok a => f a | Throw e => Throw e end.
#[global] Instance result_fmap : FMap result := λ A B f m,
  match m with Ok a => Ok (f a) | Throw e => Throw e end.

(** [!!v] *)
Definition truthy (v : value) : bool :=
  match v with
  | VUndefined | VNull => false
  | VBool b => b
  | VNum n => negb (n =? 0)
  | VStr s => negb (String.eqb s "")
  | VArr _ | VObj _ => true
  end.

(** [v == null] *)
Definition nullish (v : value) : bool :=
  match v with VUndefined | VNull => true | _ => false end.

Fixpoint join (sep : string) (l : list string) : string :=
  match l with
  | [] => ""
  | [s] => s
  | s :: rest => s ++ sep ++ join sep rest
  end.

(** [String(v)], the coercion behind [+] on a string and behind
    [indexOf]. *)
Fixpoint to_str (v : value) : string :=
  match v with
  | VUndefined => "undefined"
  | VNull => "null"
  | VBool true => "true"
  | VBool false => "false"
  | VNum n => pretty n
  | VStr s => s
  | VArr items =>
      join "," (map (λ x, if nullish x then "" else to_str x) items)
  | VObj _ => "[object Object]"
  end.

(** Own-property lookup in the property list of an object. *)
Fixpoint own (props : list (string * value)) (k : string) : option value :=
  match props with
  | [] => None
  | (k', v) :: rest => if String.eqb k' k then Some v else own rest k
  end.

Definition describe (v : value) : string :=
  match v with VNull => "null" | _ => "undefined" end.

(** [v.k] for a key that no prototype defines ([data], [browser],
    [redirect_uri], [url], [statusCode], [headers], [code], ...):
    a [TypeError] on [undefined] and [null], the own property of an
    object, [undefined] everywhere else. *)
Definition member (v : value) (k : string) : result value :=
  match v with
  | VUndefined | VNull =>
      Throw (TypeError ("Cannot read property '" ++ k ++ "' of " ++ describe v))
  | VObj props => Ok (default VUndefined (own props k))
  | _ => Ok VUndefined
  end.

(** ** The template compiler *)

(** [handlebars.compile(src, { noEscape: noEscape })(context)]: what
    the template returns, or the engine's exception.  With escaping
    switched off the template does not always return a string: a
    template that is one mustache returns the value it found. *)
Class Engine := {
  render : string → bool → value → result value
}.

Section compiler.
Context `{Engine}.

(** [compile]'s inner [loop], with the context it closes over as
    the first argument.  [_.map] and [_.mapValues] call [loop] on
    the elements from left to right, so the first exception is the
    one that escapes. *)
Fixpoint loop (context : value) (obj : value) : result value :=
  match obj with
  | VArr items =>
      VArr <$>
        (fix each (l : list value) : result (list value) :=
           match l with
           | [] => Ok []
           | x :: rest =>
               x' ← loop context x; rest' ← each rest; Ok (x' :: rest')
           end) items
  | VObj props =>
      VObj <$>
        (fix each (l : list (string * value)) : result (list (string * value)) :=
           match l with
           | [] => Ok []
           | (k, x) :: rest =>
               x' ← loop context x; rest' ← each rest; Ok ((k, x') :: rest')
           end) props
  | VStr s => render s true context
  | _ => Ok obj
  end.

(** [compile(request)], where [context] is what [data.context()]
    returned. *)
Definition compile (context : value) (request : value) : result value :=
  loop context request.

End compiler.

(** ** Positions inside a nested value *)

Inductive selector : Type :=
| Index (i : nat)
| Key (k : string).

(** The sub-value reached by following [p] from the root. *)
Fixpoint at_path (p : list selector) (v : value) : option value :=
  match p with
  | [] => Some v
  | Index i :: p' =>
      match v with
      | VArr items => items !! i ≫= at_path p'
      | _ => None
      end
  | Key k :: p' =>
      match v with
      | VObj props => own props k ≫= at_path p'
      | _ => None
      end
  end.


(** A template marker is an opening [{{]. *)
Definition opens (s : string) : bool :=
  match s with
  | String c (String d _) => Ascii.eqb c "{"%char && Ascii.eqb d "{"%char
  | _ => false
  end.

Fixpoint has_marker (s : string) : bool :=
  match s with
  | String _ rest => opens s || has_marker rest
  | EmptyString => false
  end.

(** No string leaf of the value carries a marker. *)
Fixpoint markers_free (v : value) : bool :=
  match v with
  | VStr s => negb (has_marker s)
  | VArr items => forallb markers_free items
  | VObj props => forallb (λ kv, markers_free kv.2) props
  | _ => true
  end.

(** The engine copies a template without markers to its output. *)
Class PlainText `{Engine} : Prop :=
  plain_text : ∀ s noEscape context,
    has_marker s = false → render s noEscape context = Ok (VStr s).

(** ** A concrete engine: the variable fragment of Handlebars

    A template is cut into pieces: the texts outside mustaches and
    the mustaches [{{name}}], where [name] is a plain identifier
    looked up in the context.  The template returns its pieces added
    up from left to right with JavaScript's [+]; a lone piece is
    returned as it is.  Templates with anything else between the
    braces (helpers, blocks, paths, literals, triple mustaches,
    escaped [\{{]) and sums of numbers that leave the range of exact
    integers are not covered: this instance answers them with the
    exception it also raises for a mustache that is never closed,
    which is the one case below that relies on the exception. *)

Definition is_ident_char (c : ascii) : bool :=
  (Ascii.leb "a"%char c && Ascii.leb c "z"%char)
  || (Ascii.leb "A"%char c && Ascii.leb c "Z"%char)
  || (Ascii.leb "0"%char c && Ascii.leb c "9"%char)
  || Ascii.eqb c "_"%char.

Definition is_digit (c : ascii) : bool :=
  Ascii.leb "0"%char c && Ascii.leb c "9"%char.

Fixpoint all_chars (f : ascii → bool) (s : string) : bool :=
  match s with
  | EmptyString => true
  | String c rest => f c && all_chars f rest
  end.

(** Words the engine does not treat as a context variable: literals,
    [this], the built-in helpers and the names every object inherits. *)
Definition reserved : list string :=
  [ "this"; "true"; "false"; "null"; "undefined"; "else"; "if"; "unless";
    "each"; "with"; "log"; "lookup"; "helperMissing"; "blockHelperMissing";
    "constructor"; "hasOwnProperty"; "isPrototypeOf"; "propertyIsEnumerable";
    "toLocaleString"; "toString"; "valueOf"; "__proto__";
    "__defineGetter__"; "__defineSetter__"; "__lookupGetter__";
    "__lookupSetter__" ].

Definition is_variable (name : string) : bool :=
  match name with
  | EmptyString => false
  | String c _ =>
      negb (is_digit c) && all_chars is_ident_char name
      && negb (existsb (String.eqb name) reserved)
  end.

Fixpoint drop_spaces (s : string) : string :=
  match s with
  | String c rest => if Ascii.eqb c " "%char then drop_spaces rest else s
  | EmptyString => EmptyString
  end.

(** Spaces around the name inside a mustache are ignored. *)
Definition trim (s : string) : string :=
  String.rev (drop_spaces (String.rev (drop_spaces s))).

(** [Handlebars.Utils.escapeExpression] on a string. *)
Fixpoint escape_html (s : string) : string :=
  match s with
  | EmptyString => EmptyString
  | String c rest =>
      (if Ascii.eqb c "&"%char then "&amp;"
       else if Ascii.eqb c "<"%char then "&lt;"
       else if Ascii.eqb c ">"%char then "&gt;"
       else if Ascii.eqb c "034"%char then "&quot;"
       else if Ascii.eqb c "'"%char then "&#x27;"
       else if Ascii.eqb c "`"%char then "&#x60;"
       else if Ascii.eqb c "="%char then "&#x3D;"
       else String c EmptyString) ++ escape_html rest
  end.

(** What a mustache contributes: the value found, or the empty string
    for a value that is missing or [null]; with escaping on, the
    escaped text of the value. *)
Definition mustache (noEscape : bool) (context : value) (expr : string)
  : option value :=
  let name := trim expr in
  if is_variable name then
    match context with
    | VObj props =>
        let v := default VUndefined (own props name) in
        if nullish v then Some (VStr "")
        else Some (if noEscape then v else VStr (escape_html (to_str v)))
    | VUndefined | VNull => Some (VStr "")
    | _ => None
    end
  else None.

(** The pieces of a template, from left to right. *)
Inductive piece : Type :=
| Text (text : string)
| Mustache (expr : string).

(** One pass over the template; [inside] holds the characters read
    since the last opening [{{], if a mustache is open. *)
Fixpoint pieces (inside : option string) (s : string) : option (list piece) :=
  match inside, s with
  | None, EmptyString => Some []
  | Some _, EmptyString => None
  | None, String c rest =>
      if opens s then
        match rest with
        | String _ rest' => pieces (Some "") rest'
        | EmptyString => None
        end
      else if Ascii.eqb c "\"%char && opens rest then None
      else
        ps ← pieces None rest;
        Some (match ps with
              | Text text :: ps' => Text (String c text) :: ps'
              | _ => Text (String c "") :: ps
              end)
  | Some expr, String c rest =>
      match rest with
      | String d rest' =>
          if Ascii.eqb c "}"%char && Ascii.eqb d "}"%char then
            ps ← pieces None rest'; Some (Mustache expr :: ps)
          else pieces (Some (expr ++ String c "")) rest
      | EmptyString => None
      end
  end.

(** The largest integer up to which every integer is a number. *)
Definition max_safe_integer : Z := 9007199254740991.

Definition safe (n : Z) : bool :=
  (- max_safe_integer <=? n) && (n <=? max_safe_integer).

(** [a + b] for values a mustache or a text can contribute: it joins
    texts as soon as one side is a string, an array or an object, and
    adds numbers and booleans otherwise. *)
Definition plus (a b : value) : option value :=
  let primitive v :=
    match v with VArr _ | VObj _ => VStr (to_str v) | _ => v end in
  let number v :=
    match v with
    | VNum n => Some n
    | VBool true => Some 1
    | VBool false | VNull => Some 0
    | _ => None
    end in
  match primitive a, primitive b with
  | VStr s, b' => Some (VStr (s ++ to_str b'))
  | a', VStr s => Some (VStr (to_str a' ++ s))
  | a', b' =>
      n ← number a'; m ← number b';
      if safe n && safe m && safe (n + m) then Some (VNum (n + m)) else None
  end.

Definition add_up (contributions : list value) : option value :=
  match contributions with
  | [] => Some (VStr "")
  | first :: others =>
      foldl (λ sum v, sum ≫= λ a, plus a v) (Some first) others
  end.

Definition contribution (noEscape : bool) (context : value) (p : piece)
  : option value :=
  match p with
  | Text text => Some (VStr text)
  | Mustache expr => mustache noEscape context expr
  end.

#[global] Instance variables_only : Engine := {|
  render src noEscape context :=
    match ps ← pieces None src;
          contributions ← mapM (contribution noEscape context) ps;
          add_up contributions with
    | Some out => Ok out
    | None => Throw (EngineError src)
    end
|}.

(** ** Node's [url] module *)

(** [href s] is [url.format(url.parse(s))]; [query s k] is
    [url.parse(s, true).query[k]]. *)
Class Url := {
  href : string → string;
  query : string → string → value
}.

(** [s.split(sep)] for a one-character separator. *)
Fixpoint split_on (sep : ascii) (s : string) : list string :=
  match s with
  | EmptyString => [""]
  | String c rest =>
      if Ascii.eqb c sep then "" :: split_on sep rest
      else match split_on sep rest with
           | w :: ws => String c w :: ws
           | [] => [String c ""]
           end
  end.

(** The text before the first [sep] (all of [s] when there is none),
    and the text after it. *)
Fixpoint before (sep : ascii) (s : string) : string :=
  match s with
  | EmptyString => ""
  | String c rest => if Ascii.eqb c sep then "" else String c (before sep rest)
  end.

Fixpoint after (sep : ascii) (s : string) : option string :=
  match s with
  | EmptyString => None
  | String c rest => if Ascii.eqb c sep then Some rest else after sep rest
  end.

(** A concrete [url] for addresses that need no normalisation and
    queries without percent escapes: the query is what stands between
    the first [?] and the fragment, its fields are separated by [&],
    a field's name ends at its first [=].  A name given once reads as
    a string, a name given several times as the array of its values. *)
Definition search (s : string) : string :=
  default "" (after "?" (before "#" s)).

Definition fields (s : string) : list (string * string) :=
  (λ f, (before "=" f, default "" (after "=" f))) <$> split_on "&" (search s).

#[global] Instance plain_url : Url := {|
  href s := s;
  query s k :=
    match (filter (λ f, f.1 = k) (fields s)).*2 with
    | [] => VUndefined
    | [v] => VStr v
    | vs => VArr (VStr <$> vs)
    end
|}.

(** ** Steps, promises and the world around them *)

(** A step as the data store hands it over; [response] is the
    record the runners write into. *)
Record Step := {
  type : value;
  request : value;
  compiled : value;
  response : gmap string value
}.

(** A field of the response record; an absent field reads as
    [undefined]. *)
Definition field (r : gmap string value) (k : string) : value :=
  default VUndefined (r !! k).

(** The promise a runner hands back: still pending, resolved with
    the response record (the step's own record, as it stood when
    [resolve] ran), or rejected. *)
Inductive settlement : Type :=
| Pending
| Resolved (r : gmap string value)
| Rejected (e : exn).

(** The three arguments with which [request] calls back. *)
Record reply := {
  error : value;
  res : value;
  body : value
}.

(** What [builder.build()] was asked for. *)
Record session := {
  browserName : string;
  chromeArguments : list string
}.

(** The browser at the other end of the driver: the [n]-th title
    query answers [title_at n] and takes [latency] milliseconds. *)
Record browser := {
  title_at : nat → string;
  latency : positive;
  queries : nat;
  visited : list string;
  quits : nat
}.

(** Everything one execution can read or change.  [promise] is the
    promise returned by the call under study, [uncaught] an exception
    that escaped from a callback into the event loop or the driver's
    control flow. *)
Record world := {
  step_of : Step;
  promise : settlement;
  uncaught : option exn;
  transport : value → reply;
  built : list session;
  page : browser
}.

Definition with_step (f : Step → Step) (w : world) : world :=
  {| step_of := f (step_of w); promise := promise w; uncaught := uncaught w;
     transport := transport w; built := built w; page := page w |}.

Definition with_promise (p : settlement) (w : world) : world :=
  {| step_of := step_of w; promise := p; uncaught := uncaught w;
     transport := transport w; built := built w; page := page w |}.

Definition with_uncaught (e : exn) (w : world) : world :=
  {| step_of := step_of w; promise := promise w; uncaught := Some e;
     transport := transport w; built := built w; page := page w |}.

Definition with_built (s : session) (w : world) : world :=
  {| step_of := step_of w; promise := promise w; uncaught := uncaught w;
     transport := transport w; built := built w ++ [s]; page := page w |}.

Definition with_page (f : browser → browser) (w : world) : world :=
  {| step_of := step_of w; promise := promise w; uncaught := uncaught w;
     transport := transport w; built := built w; page := f (page w) |}.

Definition set_compiled (c : value) (s : Step) : Step :=
  {| type := type s; request := request s; compiled := c;
     response := response s |}.

Definition set_field (k : string) (v : value) (s : Step) : Step :=
  {| type := type s; request := request s; compiled := compiled s;
     response := <[k := v]> (response s) |}.

(** Synchronous code: it reads and writes the world and may throw;
    what was written before the throw stays written. *)
Definition M (A : Type) : Type := world → result A * world.

#[global] Instance M_ret : MRet M := λ A a w, (Ok a, w).
#[global] Instance M_bind : MBind M := λ A B f m w,
  match m w with
  | (Ok a, w') => f a w'
  | (Throw e, w') => (Throw e, w')
  end.

Definition lift {A} (r : result A) : M A := λ w, (r, w).
Definition gets {A} (f : world → A) : M A := λ w, (Ok (f w), w).
Definition modify (f : world → world) : M unit := λ w, (Ok tt, f w).

(** [step.response[k] = v] *)
Definition assign (k : string) (v : value) : M unit :=
  modify (with_step (set_field k v)).

(** [resolve(step.response)]; settling a settled promise does nothing. *)
Definition resolve : M unit :=
  modify (λ w, match promise w with
               | Pending => with_promise (Resolved (response (step_of w))) w
               | _ => w
               end).

(** [v === s] and [v === n] against a literal. *)
Definition is_str (v : value) (s : string) : bool :=
  match v with VStr s' => String.eqb s' s | _ => false end.

Definition is_num (v : value) (n : Z) : bool :=
  match v with VNum n' => n' =? n | _ => false end.

(** ** The selenium-webdriver session

    [capabilities] lists the names under which
    [webdriver.Capabilities] offers a browser; [home] is
    [osenv.home()]. *)
Class Host := {
  capabilities : list string;
  home : string
}.

#[global] Instance workstation : Host := {|
  capabilities := [ "android"; "chrome"; "firefox"; "ie"; "ipad"; "iphone";
                    "opera"; "phantomjs"; "safari"; "htmlunit";
                    "htmlunitwithjs" ];
  home := "/home/user"
|}.

(** [driver.getTitle()] *)
Definition getTitle (b : browser) : string * browser :=
  (title_at b (queries b),
   {| title_at := title_at b; latency := latency b; queries := S (queries b);
      visited := visited b; quits := quits b |}).

(** [driver.get(address)]; the driver reports success whatever page
    the browser ends up showing. *)
Definition get (address : string) (b : browser) : browser :=
  {| title_at := title_at b; latency := latency b; queries := queries b;
     visited := visited b ++ [address]; quits := quits b |}.

(** [driver.quit()] *)
Definition quit (b : browser) : browser :=
  {| title_at := title_at b; latency := latency b; queries := queries b;
     visited := visited b; quits := S (quits b) |}.

(** The polling loop behind [driver.wait(condition, timeout)], for the
    condition of the authorization flow: the title starts with
    [marker].  After each query the driver looks at the clock: it
    succeeds when the condition held, gives up when [timeout]
    milliseconds or more have gone by, and polls again otherwise.
    [fuel] bounds the number of queries. *)
Fixpoint poll (fuel : nat) (marker : string) (timeout elapsed : Z)
    (b : browser) : option (result unit * browser) :=
  match fuel with
  | O => None
  | S fuel' =>
      let '(title, b') := getTitle b in
      let elapsed' := elapsed + Z.pos (latency b) in
      if String.prefix marker title then Some (Ok tt, b')
      else if timeout <=? elapsed' then
        Some (Throw (JsError ("Wait timed out after " ++ pretty elapsed' ++ "ms")),
              b')
      else poll fuel' marker timeout elapsed' b'
  end.

(** [title.indexOf(marker) === 0] turns [marker] into a string first.
    A positive [timeout] is reached after at most
    [timeout / latency + 1] queries. *)
Definition wait (marker : value) (timeout : Z) (b : browser)
  : option (result unit * browser) :=
  poll (Z.to_nat (timeout / Z.pos (latency b)) + 1) (to_str marker) timeout 0 b.

(** A command scheduled in the driver's control flow.  [None] stands
    for a command that never completes. *)
Definition task : Type := world → option (result unit * world).

(** The control flow runs the commands scheduled by one callback in
    the order in which they were scheduled.  When a command fails and
    nothing handles the failure, the commands behind it are dropped
    and the failure is reported as the flow's uncaught exception. *)
Fixpoint run_frame (tasks : list task) (w : world) : option world :=
  match tasks with
  | [] => Some w
  | t :: rest =>
      match t w with
      | None => None
      | Some (Ok _, w') => run_frame rest w'
      | Some (Throw e, w') => Some (with_uncaught e w')
      end
  end.

(** ** The runners and the dispatcher *)

Module exports.
Section exports.
Context `{Engine} `{Url} `{Host}.

(** The callback [exports.http] hands to [request]. *)
Definition http_callback (error response body : value) : M unit :=
  status ← lift (member response "statusCode");
  assign "status" status;;
  assign "completed" (VBool true);;
  failed ← (if truthy error then mret true
            else status' ← lift (member response "statusCode");
                 mret (negb (is_num status' 200)));
  (if failed : bool then assign "error" (VBool true) else mret tt);;
  headers ← lift (member response "headers");
  assign "headers" headers;;
  assign "body" body;;
  resolve.

(** [exports.http(step)]: the promise is created, the transport is
    given [step.compiled] and later calls back.  An exception thrown
    by the callback is nobody's to catch: the promise is left as it
    is. *)
Definition http (w : world) : result unit * world :=
  let r := transport w (compiled (step_of w)) in
  match http_callback (error r) (res r) (body r) (with_promise Pending w) with
  | (Ok _, w') => (Ok tt, w')
  | (Throw e, w') => (Ok tt, with_uncaught e w')
  end.

(** [exports.driver(browser)] *)
Definition driver (browser : value) : M unit :=
  let browser := if truthy browser then browser else VStr "phantomjs" in
  if bool_decide (to_str browser ∈ capabilities) then
    modify (with_built
      {| browserName := to_str browser;
         chromeArguments :=
           if is_str browser "chrome"
           then [ "user-data-dir=" ++ home ++ "/.kapit/chrome-profile" ]
           else [] |})
  else
    lift (Throw (TypeError
      ("webdriver.Capabilities." ++ to_str browser ++ " is not a function"))).

(** [url.parse(v)] accepts strings only. *)
Definition url_parse (v : value) : result string :=
  match v with
  | VStr s => Ok s
  | _ => Throw (TypeError "Parameter 'url' must be a string")
  end.

(** The part of [exports.oauthAuthorize] that runs before the
    promise exists; it returns the local [compiled] (which is
    [step.compiled.data]) and [endpoint]. *)
Definition prepare : M (value * string) :=
  root ← gets (λ w, compiled (step_of w));
  compiled ← lift (member root "data");
  browser ← lift (member compiled "browser");
  driver browser;;
  address ← lift (member root "url");
  endpoint ← lift (url_parse address);
  mret (compiled, endpoint).

(** [driver.wait(function() { ... }, 60000)] *)
Definition wait_task (compiled : value) : task := λ w,
  match member compiled "redirect_uri" with
  | Throw e => Some (Throw e, w)
  | Ok marker =>
      '(r, b) ← wait marker 60000 (page w);
      Some (r, with_page (λ _, b) w)
  end.

(** The callback on [driver.getTitle()]. *)
Definition title_callback (title : string) : M unit :=
  assign "completed" (VBool true);;
  token ← lift (url_parse
             (default VUndefined (VStr <$> split_on " " title !! 0%nat)));
  assign "code" (query token "code").

Definition title_task : task := λ w,
  let '(title, b) := getTitle (page w) in
  Some (title_callback title (with_page (λ _, b) w)).

(** [driver.quit().then(function() { resolve(step.response); })] *)
Definition quit_task : task := λ w,
  Some (resolve (with_page quit w)).

(** [exports.oauthAuthorize(step)].  [driver.switchTo()] schedules
    nothing.  The world returned is the one in which the control
    flow has come to rest. *)
Definition oauthAuthorize (w : world) : option (result unit * world) :=
  match prepare w with
  | (Throw e, w') => Some (Throw e, w')
  | (Ok (compiled, endpoint), w') =>
      w'' ← run_frame [ wait_task compiled; title_task; quit_task ]
              (with_page (get (href endpoint)) (with_promise Pending w'));
      Some (Ok tt, w'')
  end.

(** [exports.oauth(step)] *)
Definition oauth (w : world) : option (result unit * world) :=
  match member (request (step_of w)) "action" with
  | Throw e => Some (Throw e, w)
  | Ok action =>
      if is_str action "authorize" then oauthAuthorize w
      else Some (Ok tt, with_promise
             (Rejected (JsError ("Unknown OAuth action: " ++ to_str action))) w)
  end.

(** [exports.step(step)], with [context] standing for what
    [data.context()] returns. *)
Definition step (context : value) (w : world) : option (result unit * world) :=
  match compile context (request (step_of w)) with
  | Throw e => Some (Throw e, w)
  | Ok c =>
      let w := with_step (set_compiled c) w in
      let type := type (step_of w) in
      if is_str type "HTTP" then Some (http w)
      else if is_str type "OAUTH" then oauth w
      else Some (Ok tt, with_promise
             (Rejected (JsError ("Unknown request type: " ++ to_str type))) w)
  end.

End exports.
End exports.

(** ** Vocabulary for the statements *)



(** The string leaves, in the order in which [loop] meets them. *)
Fixpoint string_leaves (v : value) : list string :=
  match v with
  | VStr s => [s]
  | VArr items => concat (map string_leaves items)
  | VObj props => concat (map (λ kv, string_leaves kv.2) props)
  | _ => []
  end.

(** [_.map(items, loop)] and [_.mapValues(props, loop)] as functions
    of their own. *)
Section traversals.
Context `{Engine} (context : value).

Fixpoint each_item (l : list value) : result (list value) :=
  match l with
  | [] => Ok []
  | x :: rest =>
      x' ← loop context x; rest' ← each_item rest; Ok (x' :: rest')
  end.

Fixpoint each_prop (l : list (string * value))
  : result (list (string * value)) :=
  match l with
  | [] => Ok []
  | (k, x) :: rest =>
      x' ← loop context x; rest' ← each_prop rest; Ok ((k, x') :: rest')
  end.
End traversals.

(** Induction on values: the elements of a sequence and the values of
    a mapping come with their induction hypotheses. *)
Section value_induction.
Variable P : value → Prop.
Hypothesis Pundefined : P VUndefined.
Hypothesis Pnull : P VNull.
Hypothesis Pbool : ∀ b, P (VBool b).
Hypothesis Pnum : ∀ n, P (VNum n).
Hypothesis Pstr : ∀ s, P (VStr s).
Hypothesis Parr : ∀ items, Forall P items → P (VArr items).
Hypothesis Pobj : ∀ props, Forall (λ kv, P kv.2) props → P (VObj props).

Fixpoint value_ind (v : value) : P v :=
  match v with
  | VUndefined => Pundefined
  | VNull => Pnull
  | VBool b => Pbool b
  | VNum n => Pnum n
  | VStr s => Pstr s
  | VArr items =>
      Parr items
        (list_ind (Forall P) (Forall_nil_2 P)
           (λ x rest IH, Forall_cons_2 P x rest (value_ind x) IH) items)
  | VObj props =>
      Pobj props
        (list_ind (Forall (λ kv, P kv.2)) (Forall_nil_2 _)
           (λ kv rest IH, Forall_cons_2 _ kv rest (value_ind kv.2) IH) props)
  end.
End value_induction.

(** ** The caller: the [x] key

    The terminal shows one message line.  What is modelled of the
    handler of the [x] key is its promise chain,
    [exec.step(step).finally(clearMessage).catch(function(err) {
    step.response.error = err.message; })].  What the handler does
    before (it has the data store reset the step and puts up its
    "Loading ..." message) has happened in the terminal the chain
    starts from; the [finally]s behind the chain only redraw the
    widgets and are left out, like the widgets themselves. *)
Record terminal := {
  message : string;
  state : world
}.

(** [err.message]; the text Handlebars puts into its own errors is
    [engine_text]. *)
Definition message_of (engine_text : string → string) (e : exn) : string :=
  match e with
  | TypeError msg | JsError msg => msg
  | EngineError template => engine_text template
  end.

Section caller.
Context `{Engine} `{Url} `{Host} (engine_text : string → string).

(** An exception thrown by [exec.step] leaves the handler before any
    reaction is attached; a promise that stays pending triggers none. *)
Definition execute (context : value) (t : terminal)
  : option (result unit * terminal) :=
  '(r, w) ← exports.step context (state t);
  match r with
  | Throw e => Some (Throw e, {| message := message t; state := w |})
  | Ok _ =>
      match promise w with
      | Pending => Some (Ok tt, {| message := message t; state := w |})
      | Resolved _ => Some (Ok tt, {| message := ""; state := w |})
      | Rejected e =>
          Some (Ok tt,
                {| message := "";
                   state := with_step
                     (set_field "error" (VStr (message_of engine_text e))) w |})
      end
  end.

End caller.

(** The exception of the first string the engine refuses, taking the
    strings from left to right. *)
Fixpoint first_refused `{Engine} (context : value) (l : list string)
  : option exn :=
  match l with
  | [] => None
  | s :: rest =>
      match render s true context with
      | Throw e => Some e
      | Ok _ => first_refused context rest
      end
  end.

(** ** Worked inputs *)

Definition ada : value := VObj [ ("name", VStr "Ada") ].

Definition greeting : value := VObj [ ("greeting", VStr "Hello {{name}}") ].

(** A request that mixes every kind of value. *)
Definition mixed : value :=
  VObj [ ("url", VStr "https://api/{{name}}");
         ("retries", VNum 3);
         ("json", VBool true);
         ("body", VNull);
         ("tags", VArr [ VStr "{{name}}"; VNum 7; VArr []; VObj [] ]) ].

Definition mixed_compiled : value :=
  VObj [ ("url", VStr "https://api/Ada");
         ("retries", VNum 3);
         ("json", VBool true);
         ("body", VNull);
         ("tags", VArr [ VStr "Ada"; VNum 7; VArr []; VObj [] ]) ].

(** What the transport hands to the callback of this execution. *)
Definition answer (w : world) : reply := transport w (compiled (step_of w)).

(** A browser that shows the same title whenever it is asked. *)
Definition still (title : string) (ms : positive) : browser :=
  {| title_at := λ _, title; latency := ms; queries := 0; visited := [];
     quits := 0 |}.

(** The world before an execution starts. *)
Definition fresh (s : Step) (net : value → reply) (b : browser) : world :=
  {| step_of := s; promise := Pending; uncaught := None; transport := net;
     built := []; page := b |}.

Definition ping (r : gmap string value) : Step :=
  {| type := VStr "HTTP";
     request := VObj [ ("url", VStr "http://api/ping") ];
     compiled := VObj [ ("url", VStr "http://api/ping") ];
     response := r |}.

Definition pong_headers : value := VObj [ ("content-type", VStr "text/plain") ].

(** The transport answers with a status and a body, or with an error
    and nothing else. *)
Definition answers (status : Z) (_ : value) : reply :=
  {| error := VNull;
     res := VObj [ ("statusCode", VNum status); ("headers", pong_headers) ];
     body := VStr "pong" |}.

Definition refuses (_ : value) : reply :=
  {| error := VObj [ ("code", VStr "ECONNREFUSED") ];
     res := VUndefined;
     body := VUndefined |}.

Definition authorize (data : list (string * value)) (r : gmap string value)
  : Step :=
  let described :=
    VObj ([ ("action", VStr "authorize");
            ("url", VStr "https://idp/authorize?client_id=kapit") ] ++ data) in
  {| type := VStr "OAUTH"; request := described; compiled := described;
     response := r |}.

Definition callback_data : list (string * value) :=
  [ ("data", VObj [ ("browser", VStr "phantomjs");
                    ("redirect_uri", VStr "https://cb") ]) ].

(** The identity provider shows its form for three queries and then
    redirects to the callback address. *)
Definition redirects (title : string) : browser :=
  {| title_at := λ n, if (n <? 3)%nat then "Sign in" else title;
     latency := 500; queries := 0; visited := []; quits := 0 |}.

(** The browser of [redirects] after the navigation and the four
    queries of the wait. *)
Definition redirected (title : string) : browser :=
  {| title_at := title_at (redirects title); latency := 500; queries := 4;
     visited := [ "https://idp/authorize?client_id=kapit" ]; quits := 0 |}.

Definition transfer (address : string) : Step :=
  {| type := VStr "FTP"; request := VObj [ ("url", VStr address) ];
     compiled := VUndefined; response := {[ "status" := VNum 200 ]} |}.

(** * Properties *)

(** ** The template compiler *)

Section compiler_facts.
Context `{Engine} (context : value).

Lemma loop_arr items :
  loop context (VArr items) = VArr <$> each_item context items.
Proof. reflexivity. Qed.

Lemma loop_obj props :
  loop context (VObj props) = VObj <$> each_prop context props.
Proof. reflexivity. Qed.

Lemma each_item_cons_ok x rest out :
  each_item context (x :: rest) = Ok out →
  ∃ x' rest', out = x' :: rest' ∧ loop context x = Ok x'
              ∧ each_item context rest = Ok rest'.
Proof.
  cbn [each_item]. destruct (loop context x) as [x'|e]; [|done].
  cbn. destruct (each_item context rest) as [rest'|e]; [|done].
  cbn. intros [= <-]. eauto.
Qed.

Lemma each_prop_cons_ok k x rest out :
  each_prop context ((k, x) :: rest) = Ok out →
  ∃ x' rest', out = (k, x') :: rest' ∧ loop context x = Ok x'
              ∧ each_prop context rest = Ok rest'.
Proof.
  cbn [each_prop]. destruct (loop context x) as [x'|e]; [|done].
  cbn. destruct (each_prop context rest) as [rest'|e]; [|done].
  cbn. intros [= <-]. eauto.
Qed.

(** Element [i] of the output is the compiled element [i] of the
    input, and no element is added or lost. *)
Lemma each_item_lookup l out :
  each_item context l = Ok out →
  length out = length l ∧
  ∀ i x, l !! i = Some x →
         ∃ x', out !! i = Some x' ∧ loop context x = Ok x'.
Proof.
  revert out. induction l as [|x rest IH]; intros out Hout.
  - injection Hout as <-. split; [done|]. intros i x Hi. by destruct i.
  - apply each_item_cons_ok in Hout as (x' & rest' & -> & Hx & Hrest).
    destruct (IH _ Hrest) as [Hlen Hget]. split.
    + cbn. by rewrite Hlen.
    + intros [|i] y Hy; cbn in Hy |- *.
      * injection Hy as <-. eauto.
      * by apply Hget.
Qed.

(** The keys come out as they went in, each with its compiled value. *)
Lemma each_prop_lookup l out :
  each_prop context l = Ok out →
  out.*1 = l.*1 ∧
  ∀ k x, own l k = Some x →
         ∃ x', own out k = Some x' ∧ loop context x = Ok x'.
Proof.
  revert out. induction l as [|[k0 x0] rest IH]; intros out Hout.
  - injection Hout as <-. split; [done|]. intros k x Hk. discriminate.
  - apply each_prop_cons_ok in Hout as (x' & rest' & -> & Hx & Hrest).
    destruct (IH _ Hrest) as [Hkeys Hget]. split.
    + cbn. by rewrite Hkeys.
    + intros k y Hy. cbn in Hy |- *.
      destruct (String.eqb k0 k).
      * injection Hy as <-. eauto.
      * by apply Hget.
Qed.

(** Compilation commutes with the selection of a sub-value. *)
Lemma loop_at_path p : ∀ v v' x,
  loop context v = Ok v' → at_path p v = Some x →
  ∃ x', at_path p v' = Some x' ∧ loop context x = Ok x'.
Proof.
  induction p as [|sel p IH]; intros v v' x Hv Hx.
  - injection Hx as <-. eauto.
  - destruct sel as [i|k]; destruct v as [| | | | |items|props]; try done.
    + rewrite loop_arr in Hv.
      destruct (each_item context items) as [out|] eqn:Hout; [|done].
      injection Hv as <-. cbn in Hx |- *.
      destruct (items !! i) as [y|] eqn:Hy; [|done]. cbn in Hx.
      apply each_item_lookup in Hout as [_ Hget].
      destruct (Hget _ _ Hy) as (y' & -> & Hy'). cbn. eauto.
    + rewrite loop_obj in Hv.
      destruct (each_prop context props) as [out|] eqn:Hout; [|done].
      injection Hv as <-. cbn in Hx |- *.
      destruct (own props k) as [y|] eqn:Hy; [|done]. cbn in Hx.
      apply each_prop_lookup in Hout as [_ Hget].
      destruct (Hget _ _ Hy) as (y' & -> & Hy'). cbn. eauto.
Qed.


End compiler_facts.

Section compiler_induction.
Context `{Engine} (context : value).






(** Without string leaves there is nothing to render. *)
Lemma loop_no_strings v : string_leaves v = [] → loop context v = Ok v.
Proof.
  induction v as [| | | | s |items IH|props IH] using value_ind; try done.
  - rewrite loop_arr. cbn [string_leaves]. intros Hnone.
    enough (each_item context items = Ok items) as -> by done.
    induction IH as [|x rest Hx _ IHrest]; [done|].
    cbn in Hnone. apply app_eq_nil in Hnone as [Hx0 Hrest0].
    cbn [each_item]. by rewrite (Hx Hx0), (IHrest Hrest0).
  - rewrite loop_obj. cbn [string_leaves]. intros Hnone.
    enough (each_prop context props = Ok props) as -> by done.
    induction IH as [|[k x] rest Hx _ IHrest]; [done|].
    cbn in Hnone, Hx. apply app_eq_nil in Hnone as [Hx0 Hrest0].
    cbn [each_prop]. by rewrite (Hx Hx0), (IHrest Hrest0).
Qed.

(** A value without markers is compiled to itself by an engine that
    copies plain text. *)
Lemma loop_plain `{!PlainText} v : markers_free v = true → loop context v = Ok v.
Proof.
  induction v as [| | | | s |items IH|props IH] using value_ind; try done.
  - cbn. intros Hs%negb_true_iff. by apply plain_text.
  - rewrite loop_arr. cbn [markers_free]. intros Hall.
    enough (each_item context items = Ok items) as -> by done.
    induction IH as [|x rest Hx _ IHrest]; [done|].
    cbn in Hall. apply andb_true_iff in Hall as [Hx0 Hrest0].
    cbn [each_item]. by rewrite (Hx Hx0), (IHrest Hrest0).
  - rewrite loop_obj. cbn [markers_free]. intros Hall.
    enough (each_prop context props = Ok props) as -> by done.
    induction IH as [|[k x] rest Hx _ IHrest]; [done|].
    cbn in Hall, Hx. apply andb_true_iff in Hall as [Hx0 Hrest0].
    cbn [each_prop]. by rewrite (Hx Hx0), (IHrest Hrest0).
Qed.

End compiler_induction.

(** The concrete engine copies plain text. *)
Lemma opens_has_marker s : opens s = true → has_marker s = true.
Proof. destruct s as [|c rest]; [done|]. cbn [has_marker]. by intros ->. Qed.

Lemma pieces_plain s :
  has_marker s = false →
  pieces None s = Some (match s with
                        | EmptyString => []
                        | _ => [Text s]
                        end).
Proof.
  induction s as [|c rest IH]; [done|].
  cbn [has_marker]. intros [Hopen Hrest]%orb_false_iff.
  cbn [pieces]. rewrite Hopen.
  destruct (opens rest) eqn:Hopen'.
  - apply opens_has_marker in Hopen'. congruence.
  - rewrite andb_false_r, (IH Hrest). by destruct rest.
Qed.

#[global] Instance variables_only_plain : PlainText.
Proof.
  intros s noEscape context Hs. cbn. rewrite pieces_plain by done.
  by destruct s.
Qed.



(** C7. A string leaf, wherever it sits in the input, is handed to
    the engine as a template with escaping switched off
    ([noEscape: true]) and what the template returns takes its place
    as it is.  With the context [{ name: "Ada" }] the input
    [{ greeting: "Hello {{name}}" }] compiles to
    [{ greeting: "Hello Ada" }]; characters that escaping would
    rewrite come through as they are, and so does a number that a
    template of one mustache returns. *)
Theorem compile_renders_string_leaves :
  (∀ (E : Engine) (context v v' : value) p s,
     compile context v = Ok v' → at_path p v = Some (VStr s) →
     ∃ r, render s true context = Ok r ∧ at_path p v' = Some r)
  ∧ compile ada greeting = Ok (VObj [ ("greeting", VStr "Hello Ada") ])
  ∧ compile (VObj [ ("name", VStr "<Ada & Eve>") ]) greeting
    = Ok (VObj [ ("greeting", VStr "Hello <Ada & Eve>") ])
  ∧ render "Hello {{name}}" false (VObj [ ("name", VStr "<Ada & Eve>") ])
    = Ok (VStr "Hello &lt;Ada &amp; Eve&gt;")
  ∧ compile (VObj [ ("n", VNum 3) ]) (VObj [ ("count", VStr "{{n}}") ])
    = Ok (VObj [ ("count", VNum 3) ]).
Proof.
  split; [|by repeat split].
  intros E context v v' p s Hv' Hs.
  destruct (loop_at_path context p _ _ _ Hv' Hs) as (x' & Hx' & Hloop).
  cbn in Hloop. eauto.
Qed.

Lemma compile_renders_string_leaves_witness :
  ∃ r, render "{{name}}" true ada = Ok r
       ∧ at_path [Key "tags"; Index 0%nat] mixed_compiled = Some r.
Proof.
  apply (proj1 compile_renders_string_leaves variables_only ada mixed
           mixed_compiled [Key "tags"; Index 0%nat] "{{name}}");
    reflexivity.
Defined.

(** C8. Compiling a value none of whose strings contains a template
    marker gives the value back, so running the compiler on its own
    output changes nothing: [compile(compile(v)) = compile(v)].  The
    engine enters through the one fact that it copies text without
    markers. *)
Theorem compile_idempotent_without_markers `{PlainText} (context v : value) :
  markers_free v = true →
  compile context v = Ok v
  ∧ (compile context v ≫= compile context) = compile context v.
Proof.
  intros Hfree. assert (compile context v = Ok v) as Hv by (by apply (loop_plain context)).
  split; [done|]. rewrite Hv. cbn. exact Hv.
Qed.

Lemma compile_idempotent_without_markers_witness :
  compile ada mixed_compiled = Ok mixed_compiled
  ∧ (compile ada mixed_compiled ≫= compile ada) = compile ada mixed_compiled.
Proof.
  apply (compile_idempotent_without_markers (H:=variables_only)).
  reflexivity.
Defined.

(** ** The HTTP runner *)

(** Runs the synchronous code of a callback on the world at hand. *)
Ltac run :=
  unfold mbind, mret, M_bind, M_ret, lift, assign, modify, gets, resolve;
  cbn.

(** With a response object in hand the callback runs to its end: the
    record is written field by field and the promise resolves with it. *)
Lemma http_received w props :
  res (answer w) = VObj props →
  let status := default VUndefined (own props "statusCode") in
  let before :=
    <["completed" := VBool true]>
      (<["status" := status]> (response (step_of w))) in
  let marked :=
    if truthy (error (answer w)) || negb (is_num status 200)
    then <["error" := VBool true]> before else before in
  let written :=
    <["body" := body (answer w)]>
      (<["headers" := default VUndefined (own props "headers")]> marked) in
  ∃ w', exports.http w = (Ok tt, w')
        ∧ response (step_of w') = written
        ∧ promise w' = Resolved written
        ∧ uncaught w' = uncaught w.
Proof.
  unfold answer. intros Hres. unfold exports.http, exports.http_callback.
  rewrite Hres. run.
  destruct (truthy (error (transport w (compiled (step_of w))))); cbn.
  - eexists. split; [reflexivity|]. by split_and!.
  - destruct (is_num (default VUndefined (own props "statusCode")) 200); cbn.
    + eexists. split; [reflexivity|]. by split_and!.
    + eexists. split; [reflexivity|]. by split_and!.
Qed.

(** Without a response object the callback throws on its first
    statement and nothing is written. *)
Lemma http_not_received w :
  nullish (res (answer w)) = true →
  exports.http w
  = (Ok tt,
     with_uncaught
       (TypeError ("Cannot read property 'statusCode' of "
                   ++ describe (res (answer w))))
       (with_promise Pending w)).
Proof.
  unfold answer, exports.http, exports.http_callback.
  by destruct (res (transport w (compiled (step_of w)))); run.
Qed.

(** A response that is neither an object nor missing (a string, say)
    has no status code and no headers. *)
Lemma http_received_primitive w :
  nullish (res (answer w)) = false → (∀ props, res (answer w) ≠ VObj props) →
  ∃ w', exports.http w = (Ok tt, w')
        ∧ response (step_of w') !! "error" = Some (VBool true).
Proof.
  unfold answer, exports.http, exports.http_callback. intros Hnull Hobj.
  destruct (res (transport w (compiled (step_of w))))
    as [| |b|n|s|items|props] eqn:Hres; try done;
    [..|by destruct (Hobj props)]; run;
    (destruct (truthy _); cbn; eexists; (split; [reflexivity|]);
     by simplify_map_eq).
Qed.

(** C1. When the transport fails before any response exists,
    [request] calls back with an error and no response object.  The
    callback then stops at its first statement, the read of
    [response.statusCode]: the exception escapes into the event loop,
    no field of the record is written, and the promise is neither
    resolved nor rejected. *)
Theorem http_transport_failure_never_settles w :
  nullish (res (answer w)) = true →
  ∃ w' msg, exports.http w = (Ok tt, w')
            ∧ promise w' = Pending
            ∧ uncaught w' = Some (TypeError msg)
            ∧ response (step_of w') = response (step_of w).
Proof.
  intros Hnone. rewrite http_not_received by done.
  eexists _, _. by split_and!.
Qed.

Lemma http_transport_failure_never_settles_witness :
  ∃ w' msg, exports.http (fresh (ping ∅) refuses (still "" 1)) = (Ok tt, w')
            ∧ promise w' = Pending
            ∧ uncaught w' = Some (TypeError msg)
            ∧ response (step_of w') = response (ping ∅).
Proof.
  apply (http_transport_failure_never_settles (fresh (ping ∅) refuses (still "" 1))).
  reflexivity.
Defined.

(** C2, as the code has it.  When a response object with a numeric
    status code arrives, the record gets [completed = true], the
    status code, the headers and the body of the response, and the
    promise resolves with the record.  [error] is set to [true] when
    the status code is not 200 or the transport reported an error
    alongside the response; otherwise [error] is not written and keeps
    the value it had before the call.  No other field changes. *)
Theorem http_records_response w props code :
  res (answer w) = VObj props →
  own props "statusCode" = Some (VNum code) →
  ∃ w', exports.http w = (Ok tt, w')
    ∧ promise w' = Resolved (response (step_of w'))
    ∧ response (step_of w') !! "completed" = Some (VBool true)
    ∧ response (step_of w') !! "status" = Some (VNum code)
    ∧ response (step_of w') !! "headers"
      = Some (default VUndefined (own props "headers"))
    ∧ response (step_of w') !! "body" = Some (body (answer w))
    ∧ response (step_of w') !! "error"
      = (if truthy (error (answer w)) || negb (code =? 200)
         then Some (VBool true)
         else response (step_of w) !! "error")
    ∧ ∀ k, k ∉ [ "status"; "completed"; "error"; "headers"; "body" ] →
           response (step_of w') !! k = response (step_of w) !! k.
Proof.
  intros Hres Hcode.
  destruct (http_received w props Hres) as (w' & Hrun & Hwritten & Hpromise & _).
  rewrite Hcode in Hwritten, Hpromise. cbn in Hwritten, Hpromise.
  exists w'. split; [done|]. rewrite Hpromise, Hwritten.
  split; [done|].
  destruct (truthy (error (answer w)) || negb (code =? 200));
    (split_and!; [by simplify_map_eq ..|]);
    intros k Hk; repeat (rewrite lookup_insert_ne; [|set_solver]); done.
Qed.

Lemma http_records_response_witness :
  ∃ w', exports.http (fresh (ping ∅) (answers 404) (still "" 1)) = (Ok tt, w')
    ∧ promise w' = Resolved (response (step_of w'))
    ∧ response (step_of w') !! "completed" = Some (VBool true)
    ∧ response (step_of w') !! "status" = Some (VNum 404)
    ∧ response (step_of w') !! "headers" = Some pong_headers
    ∧ response (step_of w') !! "body" = Some (VStr "pong")
    ∧ response (step_of w') !! "error" = Some (VBool true)
    ∧ ∀ k, k ∉ [ "status"; "completed"; "error"; "headers"; "body" ] →
           response (step_of w') !! k = (∅ : gmap string value) !! k.
Proof.
  apply (http_records_response (fresh (ping ∅) (answers 404) (still "" 1))
           [ ("statusCode", VNum 404); ("headers", pong_headers) ] 404);
    reflexivity.
Defined.

(** C2 as the claim has it fails on a record that still carries
    [error = true]: a 200 does not leave [error] falsy there. *)
Lemma http_200_leaves_stale_error :
  ¬ ∀ w', exports.http (fresh (ping {[ "error" := VBool true ]}) (answers 200)
                          (still "" 1)) = (Ok tt, w') →
          response (step_of w') !! "status" = Some (VNum 200) →
          truthy (field (response (step_of w')) "error") = false.
Proof.
  intros Hclaim.
  specialize (Hclaim _ eq_refl eq_refl). vm_compute in Hclaim. discriminate.
Qed.

(** C9. The runner writes [error] in one way only, by setting it to
    [true]: after any execution [error] is [true] or what it was
    before.  So a record that carries [error = true] from an earlier
    attempt still carries it afterwards, whatever the transport
    answers, a 200 included. *)
Theorem http_never_clears_error w :
  (response (step_of (exports.http w).2) !! "error" = Some (VBool true)
   ∨ response (step_of (exports.http w).2) !! "error"
     = response (step_of w) !! "error")
  ∧ (response (step_of w) !! "error" = Some (VBool true) →
     response (step_of (exports.http w).2) !! "error" = Some (VBool true)).
Proof.
  assert (response (step_of (exports.http w).2) !! "error" = Some (VBool true)
          ∨ response (step_of (exports.http w).2) !! "error"
            = response (step_of w) !! "error") as Hwrite.
  { destruct (nullish (res (answer w))) eqn:Hnull.
    - right. by rewrite http_not_received.
    - destruct (res (answer w)) as [| |b|n|s|items|props] eqn:Hres; try done.
      1-4: left; destruct (http_received_primitive w) as (w' & Hrun & Herr);
        rewrite ?Hres; try done; by rewrite Hrun.
      destruct (http_received w props Hres) as (w' & Hrun & Hwritten & _).
      rewrite Hrun. cbn [snd]. rewrite Hwritten.
      destruct (truthy (error (answer w)) || _).
      + left. by simplify_map_eq.
      + right. by simplify_map_eq. }
  split; [done|]. intros Hstale. destruct Hwrite as [?|Hsame]; [done|].
  by rewrite Hsame.
Qed.

Lemma http_never_clears_error_witness :
  response (step_of (exports.http
     (fresh (ping {[ "error" := VBool true ]}) (answers 200) (still "" 1))).2)
    !! "error" = Some (VBool true).
Proof.
  apply (proj2 (http_never_clears_error
     (fresh (ping {[ "error" := VBool true ]}) (answers 200) (still "" 1)))).
  reflexivity.
Defined.

(** ** The driver's wait *)

Lemma getTitle_keeps b :
  title_at (getTitle b).2 = title_at b ∧ latency (getTitle b).2 = latency b
  ∧ visited (getTitle b).2 = visited b ∧ quits (getTitle b).2 = quits b
  ∧ queries (getTitle b).2 = S (queries b).
Proof. done. Qed.

(** With enough fuel for the time that is left, polling comes to an
    end. *)
Lemma poll_ends fuel : ∀ marker timeout elapsed b,
  (0 < fuel)%nat →
  timeout - elapsed ≤ Z.of_nat fuel * Z.pos (latency b) →
  ∃ r b', poll fuel marker timeout elapsed b = Some (r, b')
          ∧ title_at b' = title_at b ∧ visited b' = visited b
          ∧ quits b' = quits b.
Proof.
  induction fuel as [|fuel IH]; intros marker timeout elapsed b Hfuel Hleft;
    [lia|].
  cbn [poll]. destruct (getTitle b) as [title b1] eqn:Hget.
  assert (b1 = (getTitle b).2) as Hb1 by by rewrite Hget.
  destruct (getTitle_keeps b) as (Ht & Hl & Hv & Hq & _).
  rewrite <- Hb1 in Ht, Hl, Hv, Hq.
  destruct (String.prefix marker title); [by eauto 10|].
  destruct (timeout <=? elapsed + Z.pos (latency b)) eqn:Hnow; [by eauto 10|].
  apply Z.leb_gt in Hnow.
  destruct (IH marker timeout (elapsed + Z.pos (latency b)) b1)
    as (r & b' & -> & Ht' & Hv' & Hq'); [nia|rewrite Hl; nia|].
  exists r, b'. split_and!; congruence.
Qed.

(** A title that never starts with the marker makes the wait fail
    once the timeout has gone by. *)
Lemma poll_gives_up fuel : ∀ marker timeout elapsed b,
  (∀ n, String.prefix marker (title_at b n) = false) →
  (0 < fuel)%nat →
  timeout - elapsed ≤ Z.of_nat fuel * Z.pos (latency b) →
  ∃ ms b', poll fuel marker timeout elapsed b
           = Some (Throw (JsError ("Wait timed out after " ++ pretty ms ++ "ms")),
                   b')
           ∧ timeout ≤ ms
           ∧ visited b' = visited b ∧ quits b' = quits b.
Proof.
  induction fuel as [|fuel IH]; intros marker timeout elapsed b Hnever Hfuel Hleft;
    [lia|].
  cbn [poll]. destruct (getTitle b) as [title b1] eqn:Hget.
  assert (b1 = (getTitle b).2) as Hb1 by by rewrite Hget.
  assert (title = title_at b (queries b)) as -> by by injection Hget.
  destruct (getTitle_keeps b) as (Ht & Hl & Hv & Hq & _).
  rewrite <- Hb1 in Ht, Hl, Hv, Hq.
  rewrite Hnever.
  destruct (timeout <=? elapsed + Z.pos (latency b)) eqn:Hnow.
  - apply Z.leb_le in Hnow. by eauto 10.
  - apply Z.leb_gt in Hnow.
    destruct (IH marker timeout (elapsed + Z.pos (latency b)) b1)
      as (ms & b' & -> & Hms & Hv' & Hq');
      [by rewrite Ht|nia|rewrite Hl; nia|].
    exists ms, b'. split_and!; congruence.
Qed.

(** A successful wait saw a title that starts with the marker; it is
    the title of the last query. *)
Lemma poll_matched fuel : ∀ marker timeout elapsed b b',
  poll fuel marker timeout elapsed b = Some (Ok tt, b') →
  ∃ n, queries b' = S n ∧ String.prefix marker (title_at b n) = true
       ∧ title_at b' = title_at b ∧ visited b' = visited b
       ∧ quits b' = quits b.
Proof.
  induction fuel as [|fuel IH]; intros marker timeout elapsed b b' Hpoll;
    [done|].
  cbn [poll] in Hpoll. destruct (getTitle b) as [title b1] eqn:Hget.
  assert (b1 = (getTitle b).2) as Hb1 by by rewrite Hget.
  assert (title = title_at b (queries b)) as -> by by injection Hget.
  destruct (getTitle_keeps b) as (Ht & Hl & Hv & Hq & Hn).
  rewrite <- Hb1 in Ht, Hl, Hv, Hq, Hn.
  destruct (String.prefix marker (title_at b (queries b))) eqn:Hhit.
  - injection Hpoll as <-. exists (queries b). by split_and!.
  - destruct (timeout <=? elapsed + Z.pos (latency b)); [done|].
    destruct (IH _ _ _ _ _ Hpoll) as (n & Hn' & Hhit' & Ht' & Hv' & Hq').
    exists n. rewrite Ht in Hhit'. split_and!; congruence.
Qed.

Lemma wait_fuel timeout (l : positive) :
  0 < timeout →
  (0 < Z.to_nat (timeout / Z.pos l) + 1)%nat
  ∧ timeout - 0 ≤ Z.of_nat (Z.to_nat (timeout / Z.pos l) + 1) * Z.pos l.
Proof.
  intros Hpos. split; [lia|].
  assert (0 ≤ timeout / Z.pos l) by (apply Z.div_pos; lia).
  pose proof (Z.mul_succ_div_gt timeout (Z.pos l)). nia.
Qed.

(** [driver.wait] with a positive timeout always comes to an end. *)
Lemma wait_ends marker timeout b :
  0 < timeout →
  ∃ r b', wait marker timeout b = Some (r, b')
          ∧ title_at b' = title_at b ∧ visited b' = visited b
          ∧ quits b' = quits b.
Proof.
  intros Hpos. destruct (wait_fuel timeout (latency b) Hpos).
  by apply poll_ends.
Qed.

Lemma wait_gives_up marker timeout b :
  0 < timeout →
  (∀ n, String.prefix (to_str marker) (title_at b n) = false) →
  ∃ ms b', wait marker timeout b
           = Some (Throw (JsError ("Wait timed out after " ++ pretty ms ++ "ms")),
                   b')
           ∧ timeout ≤ ms
           ∧ visited b' = visited b ∧ quits b' = quits b.
Proof.
  intros Hpos Hnever. destruct (wait_fuel timeout (latency b) Hpos).
  by apply poll_gives_up.
Qed.

(** ** The OAuth runner *)

Lemma member_ok v k x : member v k = Ok x → nullish v = false.
Proof. by destruct v. Qed.

Lemma member_defined v k : nullish v = false → ∃ x, member v k = Ok x.
Proof. destruct v; try done; cbn; eauto. Qed.

(** The preparations either throw or build one session and leave
    everything else alone; [step.compiled.data] is then an object or a
    primitive, not [undefined] or [null]. *)
Lemma prepare_ok `{Host} w data endpoint w1 :
  exports.prepare w = (Ok (data, endpoint), w1) →
  member (compiled (step_of w)) "data" = Ok data
  ∧ nullish data = false
  ∧ member (compiled (step_of w)) "url" = Ok (VStr endpoint)
  ∧ ∃ s, w1 = with_built s w.
Proof.
  unfold exports.prepare, exports.driver. run.
  destruct (member (compiled (step_of w)) "data") as [d|] eqn:Hdata; [|done].
  destruct (member d "browser") as [name|] eqn:Hname; [|done].
  apply member_ok in Hname.
  case_bool_decide; [|done]. cbn.
  destruct (member (compiled (step_of w)) "url") as [[]|] eqn:Hurl; try done.
  cbn. intros [= <- <- <-]. eauto.
Qed.

(** Without [step.compiled.data] the first statement that uses it
    throws; nothing has happened by then. *)
Lemma prepare_without_data `{Host} w root :
  member (compiled (step_of w)) "data" = Ok root → nullish root = true →
  exports.prepare w
  = (Throw (TypeError ("Cannot read property 'browser' of " ++ describe root)), w).
Proof.
  unfold exports.prepare. run. intros -> Hnull. by destruct root.
Qed.

Lemma split_on_first sep s : split_on sep s !! 0%nat = Some (before sep s).
Proof.
  induction s as [|c rest IH]; [done|]. cbn.
  destruct (Ascii.eqb c sep); [done|].
  by destruct (split_on sep rest) as [|w ws]; [|injection IH as ->].
Qed.

(** C10. The flow takes the browser name and the redirect marker from
    [step.compiled.data], whatever the top level of the compiled
    request holds.  When the compiled request has no [data] (or a
    [null] one), reading [data.browser] throws a [TypeError]: at that
    point no session has been built, no field of the response has been
    written and no promise exists. *)
Theorem oauth_requires_data `{Url} `{Host} w props :
  compiled (step_of w) = VObj props →
  nullish (default VUndefined (own props "data")) = true →
  ∃ msg, exports.oauthAuthorize w = Some (Throw (TypeError msg), w).
Proof.
  intros Hroot Hnull. unfold exports.oauthAuthorize.
  rewrite (prepare_without_data w (default VUndefined (own props "data")));
    [by eauto|by rewrite Hroot|done].
Qed.

Lemma oauth_requires_data_witness :
  ∃ msg,
    exports.oauthAuthorize
      (fresh (authorize [ ("browser", VStr "chrome");
                          ("redirect_uri", VStr "https://cb") ] ∅)
         refuses (still "Sign in" 500))
    = Some (Throw (TypeError msg),
            fresh (authorize [ ("browser", VStr "chrome");
                               ("redirect_uri", VStr "https://cb") ] ∅)
              refuses (still "Sign in" 500)).
Proof.
  eapply (oauth_requires_data
            (fresh (authorize [ ("browser", VStr "chrome");
                                ("redirect_uri", VStr "https://cb") ] ∅)
               refuses (still "Sign in" 500)));
    reflexivity.
Defined.

(** C3. What the code does when the title never starts with the
    marker.  The wait fails after 60000 milliseconds or more with the
    driver's "Wait timed out" error, and the control flow drops the
    commands scheduled behind it, [getTitle] and
    [quit().then(resolve)] among them.  So [quit] is never invoked on
    the session, no field of the response is written, and the promise,
    which nothing but the callback of [quit] settles, is neither
    rejected nor resolved: the error ends as the control flow's
    uncaught exception. *)
Theorem oauth_timeout_leaves_promise_pending `{Url} `{Host}
    w data endpoint w1 marker :
  exports.prepare w = (Ok (data, endpoint), w1) →
  member data "redirect_uri" = Ok marker →
  (∀ n, String.prefix (to_str marker) (title_at (page w) n) = false) →
  ∃ w' ms, exports.oauthAuthorize w = Some (Ok tt, w')
    ∧ uncaught w' = Some (JsError ("Wait timed out after " ++ pretty ms ++ "ms"))
    ∧ 60000 ≤ ms
    ∧ promise w' = Pending
    ∧ quits (page w') = quits (page w)
    ∧ response (step_of w') = response (step_of w).
Proof.
  intros Hprepare Hmarker Hnever.
  destruct (prepare_ok _ _ _ _ Hprepare) as (_ & _ & _ & s & ->).
  unfold exports.oauthAuthorize. rewrite Hprepare.
  cbn [run_frame]. unfold exports.wait_task at 1. rewrite Hmarker.
  cbn [page with_page with_promise with_built].
  destruct (wait_gives_up marker 60000 (get (href endpoint) (page w)))
    as (ms & b' & -> & Hms & _ & Hquits); [done|done|].
  cbn. eexists. exists ms. split; [reflexivity|]. by split_and!.
Qed.

Lemma oauth_timeout_leaves_promise_pending_witness :
  ∃ w' ms,
    exports.oauthAuthorize
      (fresh (authorize callback_data ∅) refuses (still "Sign in" 7000))
    = Some (Ok tt, w')
    ∧ uncaught w' = Some (JsError ("Wait timed out after " ++ pretty ms ++ "ms"))
    ∧ 60000 ≤ ms
    ∧ promise w' = Pending
    ∧ quits (page w') = 0%nat
    ∧ response (step_of w') = ∅.
Proof.
  eapply (oauth_timeout_leaves_promise_pending
            (fresh (authorize callback_data ∅) refuses (still "Sign in" 7000)));
    [reflexivity|reflexivity|intros n; reflexivity].
Defined.

(** On a browser that shows the sign-in form for good the promise is
    not rejected and the session is not closed once. *)
Lemma oauth_timeout_is_not_a_rejection :
  ¬ ∃ w' e,
      exports.oauthAuthorize
        (fresh (authorize callback_data ∅) refuses (still "Sign in" 7000))
      = Some (Ok tt, w')
      ∧ promise w' = Rejected e
      ∧ quits (page w') = 1%nat.
Proof.
  intros (w' & e & Hrun & Hrejected & _).
  vm_compute in Hrun. injection Hrun as <-. discriminate.
Qed.

Lemma wait_matched marker timeout b b' :
  wait marker timeout b = Some (Ok tt, b') →
  ∃ n, queries b' = S n
       ∧ String.prefix (to_str marker) (title_at b n) = true
       ∧ title_at b' = title_at b ∧ visited b' = visited b
       ∧ quits b' = quits b.
Proof. apply poll_matched. Qed.

(** Once the wait has succeeded the flow runs to its end. *)
Lemma oauth_after_match `{Url} `{Host} w data endpoint w1 marker b :
  exports.prepare w = (Ok (data, endpoint), w1) →
  member data "redirect_uri" = Ok marker →
  wait marker 60000 (get (href endpoint) (page w)) = Some (Ok tt, b) →
  ∃ w', exports.oauthAuthorize w = Some (Ok tt, w')
    ∧ response (step_of w')
      = <["code" := query (before " " (title_at b (queries b))) "code"]>
          (<["completed" := VBool true]> (response (step_of w)))
    ∧ promise w' = Resolved (response (step_of w'))
    ∧ uncaught w' = uncaught w
    ∧ built w' = built w1
    ∧ quits (page w') = S (quits (page w)).
Proof.
  intros Hprepare Hmarker Hwait.
  destruct (prepare_ok _ _ _ _ Hprepare) as (_ & _ & _ & s & ->).
  destruct (wait_matched _ _ _ _ Hwait) as (n & _ & _ & _ & _ & Hquits).
  unfold exports.oauthAuthorize. rewrite Hprepare.
  cbn [run_frame]. unfold exports.wait_task at 1. rewrite Hmarker.
  cbn [page with_page with_promise with_built]. rewrite Hwait. cbn.
  unfold exports.title_callback. run.
  rewrite split_on_first. cbn.
  eexists. split; [reflexivity|]. cbn. by rewrite Hquits.
Qed.

(** C6. When the wait has succeeded, the flow reads the title, sets
    [completed] to [true], takes the part of the title before its
    first space ([title.split(' ')[0]]), parses it as a URL and
    stores the [code] parameter of its query under [code]; a query
    without [code] leaves [code] undefined.  The session is then
    closed and the promise resolves with the record.  A title
    [https://cb?code=abc123 Page Title] gives [code = "abc123"]. *)
Theorem oauth_extracts_code :
  (∀ (U : Url) (H : Host) w data endpoint w1 marker b,
     exports.prepare w = (Ok (data, endpoint), w1) →
     member data "redirect_uri" = Ok marker →
     wait marker 60000 (get (href endpoint) (page w)) = Some (Ok tt, b) →
     ∃ w' token,
       exports.oauthAuthorize w = Some (Ok tt, w')
       ∧ split_on " " (title_at b (queries b)) !! 0%nat = Some token
       ∧ response (step_of w') !! "code" = Some (query token "code")
       ∧ response (step_of w') !! "completed" = Some (VBool true)
       ∧ promise w' = Resolved (response (step_of w'))
       ∧ quits (page w') = S (quits (page w)))
  ∧ (∃ w',
       exports.oauthAuthorize
         (fresh (authorize callback_data ∅) refuses
            (redirects "https://cb?code=abc123 Page Title"))
       = Some (Ok tt, w')
       ∧ response (step_of w') !! "code" = Some (VStr "abc123")
       ∧ response (step_of w') !! "completed" = Some (VBool true)
       ∧ promise w' = Resolved (response (step_of w')))
  ∧ (∃ w',
       exports.oauthAuthorize
         (fresh (authorize callback_data ∅) refuses
            (redirects "https://cb?state=xyz Page Title"))
       = Some (Ok tt, w')
       ∧ field (response (step_of w')) "code" = VUndefined
       ∧ response (step_of w') !! "completed" = Some (VBool true)).
Proof.
  split_and!.
  - intros U H w data endpoint w1 marker b Hprepare Hmarker Hwait.
    destruct (oauth_after_match _ _ _ _ _ _ Hprepare Hmarker Hwait)
      as (w' & Hrun & Hwritten & Hpromise & _ & _ & Hquits).
    exists w', (before " " (title_at b (queries b))).
    rewrite Hwritten in *.
    split_and!; try done; [apply split_on_first|by simplify_map_eq..].
  - eexists. split; [vm_compute; reflexivity|]. by vm_compute.
  - eexists. split; [vm_compute; reflexivity|]. by vm_compute.
Qed.

Lemma oauth_extracts_code_witness :
  ∃ w' token,
    exports.oauthAuthorize
      (fresh (authorize callback_data ∅) refuses
         (redirects "https://cb?code=abc123 Page Title"))
    = Some (Ok tt, w')
    ∧ split_on " "
        (title_at (redirected "https://cb?code=abc123 Page Title")
           (queries (redirected "https://cb?code=abc123 Page Title")))
      !! 0%nat = Some token
    ∧ response (step_of w') !! "code" = Some (query token "code")
    ∧ response (step_of w') !! "completed" = Some (VBool true)
    ∧ promise w' = Resolved (response (step_of w'))
    ∧ quits (page w') = 1%nat.
Proof.
  eapply (proj1 oauth_extracts_code plain_url workstation
            (fresh (authorize callback_data ∅) refuses
               (redirects "https://cb?code=abc123 Page Title"))
            _ _ _ _ (redirected "https://cb?code=abc123 Page Title"));
    reflexivity.
Defined.

(** ** The dispatcher *)

(** C5, as the code has it.  The dispatcher compiles the request
    before it looks at the type.  For a type other than [HTTP] and
    [OAUTH] it then returns a promise rejected with the error
    "Unknown request type: " followed by the type; when a template of
    the request does not render, the engine's exception is thrown
    instead and the type is never looked at.  In both cases the
    response record is left as it was. *)
Theorem step_unknown_type `{Engine} `{Url} `{Host} context w :
  is_str (type (step_of w)) "HTTP" = false →
  is_str (type (step_of w)) "OAUTH" = false →
  ∃ r w', exports.step context w = Some (r, w')
    ∧ response (step_of w') = response (step_of w)
    ∧ match compile context (request (step_of w)) with
      | Ok c =>
          r = Ok tt
          ∧ promise w'
            = Rejected (JsError ("Unknown request type: "
                                 ++ to_str (type (step_of w))))
          ∧ compiled (step_of w') = c
      | Throw e => r = Throw e ∧ w' = w
      end.
Proof.
  intros Hhttp Hoauth. unfold exports.step.
  destruct (compile context (request (step_of w))) as [c|e].
  - cbn. rewrite Hhttp, Hoauth. eexists _, _. by split_and!.
  - eexists _, _. by split_and!.
Qed.

Lemma step_unknown_type_witness :
  ∃ r w',
    exports.step ada (fresh (transfer "ftp://{{name}}/") refuses (still "" 1))
    = Some (r, w')
    ∧ response (step_of w') = {[ "status" := VNum 200 ]}
    ∧ r = Ok tt
    ∧ promise w' = Rejected (JsError "Unknown request type: FTP")
    ∧ compiled (step_of w') = VObj [ ("url", VStr "ftp://Ada/") ].
Proof.
  exact (step_unknown_type ada
           (fresh (transfer "ftp://{{name}}/") refuses (still "" 1))
           eq_refl eq_refl).
Defined.

(** C5 as the claim has it fails on a step whose request holds a
    mustache that is never closed: nothing is rejected, the engine's
    exception is thrown. *)
Lemma step_unknown_type_behind_compile :
  ¬ ∃ w' e,
      exports.step ada (fresh (transfer "ftp://{{name") refuses (still "" 1))
      = Some (Ok tt, w')
      ∧ promise w' = Rejected e.
Proof.
  intros (w' & e & Hrun & _). vm_compute in Hrun. discriminate.
Qed.

(** ** Every execution comes to rest *)

Lemma run_frame_ends tasks : ∀ w,
  Forall (λ t : task, ∀ w, is_Some (t w)) tasks → is_Some (run_frame tasks w).
Proof.
  induction tasks as [|t rest IH]; intros w Hall; [done|].
  apply Forall_cons in Hall as [Ht Hrest]. cbn.
  destruct (Ht w) as [[[[]|e] w'] ->]; [by apply IH|done].
Qed.

Lemma oauthAuthorize_ends `{Url} `{Host} w : is_Some (exports.oauthAuthorize w).
Proof.
  unfold exports.oauthAuthorize.
  destruct (exports.prepare w) as [[[data endpoint]|e] w1] eqn:Hprepare; [|done].
  destruct (prepare_ok _ _ _ _ Hprepare) as (_ & Hdata & _).
  destruct (member_defined data "redirect_uri" Hdata) as [marker Hmarker].
  destruct (run_frame_ends
              [ exports.wait_task data; exports.title_task; exports.quit_task ]
              (with_page (get (href endpoint)) (with_promise Pending w1)))
    as [w' ->]; [|done].
  repeat apply Forall_cons_2; [| | |done].
  - intros w0. unfold exports.wait_task. rewrite Hmarker.
    by destruct (wait_ends marker 60000 (page w0)) as (r & b' & -> & _).
  - intros w0. unfold exports.title_task. by destruct (getTitle (page w0)).
  - done.
Qed.

Lemma step_ends `{Engine} `{Url} `{Host} context w :
  is_Some (exports.step context w).
Proof.
  unfold exports.step, exports.oauth.
  destruct (compile context (request (step_of w))); [|done]. cbn.
  repeat case_match; try done. apply oauthAuthorize_ends.
Qed.

(** * Further properties *)

(** ** The template compiler *)

Section compiler_outcome.
Context `{Engine} (context : value).

Lemma first_refused_app l1 l2 :
  first_refused context (l1 ++ l2)
  = match first_refused context l1 with
    | Some e => Some e
    | None => first_refused context l2
    end.
Proof.
  induction l1 as [|s rest IH]; [done|]. cbn.
  by destruct (render s true context).
Qed.

(** What [loop] does with a value is what the engine does with its
    strings, one after the other. *)
Lemma loop_first_refused v :
  match loop context v with
  | Ok _ => first_refused context (string_leaves v) = None
  | Throw e => first_refused context (string_leaves v) = Some e
  end.
Proof.
  induction v as [| | | | s |items IH|props IH] using value_ind; try done.
  - cbn. by destruct (render s true context).
  - rewrite loop_arr. cbn [string_leaves].
    enough (match each_item context items with
            | Ok _ => first_refused context (concat (map string_leaves items))
                      = None
            | Throw e => first_refused context (concat (map string_leaves items))
                         = Some e
            end) by by destruct (each_item context items).
    induction IH as [|x rest Hx _ IHrest]; [done|].
    cbn [each_item map concat]. rewrite first_refused_app.
    destruct (loop context x) as [x'|e]; rewrite Hx; [|done]. cbn.
    by destruct (each_item context rest).
  - rewrite loop_obj. cbn [string_leaves].
    enough (match each_prop context props with
            | Ok _ =>
                first_refused context
                  (concat (map (λ kv, string_leaves kv.2) props)) = None
            | Throw e =>
                first_refused context
                  (concat (map (λ kv, string_leaves kv.2) props)) = Some e
            end) by by destruct (each_prop context props).
    induction IH as [|[k x] rest Hx _ IHrest]; [done|].
    cbn [each_prop map concat]. rewrite first_refused_app. cbn in Hx |- *.
    destruct (loop context x) as [x'|e]; rewrite Hx; [|done]. cbn.
    by destruct (each_prop context rest).
Qed.

End compiler_outcome.

(** X1. A value without any string in it (numbers, booleans, [null],
    [undefined], containers of these, empty containers) is compiled
    to itself, whatever the engine and the context. *)
Theorem compile_identity_without_strings `{Engine} (context v : value) :
  string_leaves v = [] → compile context v = Ok v.
Proof. apply loop_no_strings. Qed.

Lemma compile_identity_without_strings_witness :
  compile ada
    (VObj [ ("retries", VNum 3); ("flags", VArr [ VBool true; VNull ]);
            ("form", VObj []); ("body", VUndefined) ])
  = Ok (VObj [ ("retries", VNum 3); ("flags", VArr [ VBool true; VNull ]);
               ("form", VObj []); ("body", VUndefined) ]).
Proof.
  apply (compile_identity_without_strings (H:=variables_only)). reflexivity.
Defined.

(** X2. [compile] throws exactly when the engine refuses one of the
    strings of the request, and what it throws is the exception of the
    first string refused, in the order in which [_.map] and
    [_.mapValues] walk the request; strings behind it are not
    rendered into the outcome, and [compile] adds no exception of its
    own. *)
Theorem compile_throws_first_refusal `{Engine} (context v : value) :
  (∀ e, compile context v = Throw e
        ↔ first_refused context (string_leaves v) = Some e)
  ∧ ((∃ v', compile context v = Ok v')
     ↔ first_refused context (string_leaves v) = None).
Proof.
  pose proof (loop_first_refused context v) as Hv. unfold compile.
  destruct (loop context v) as [v'|e']; rewrite Hv.
  - split; [done|]. split; [done|eauto].
  - split.
    + intros e. split; congruence.
    + split; [by intros [v' ?]|done].
Qed.

(** ** The HTTP runner *)

(** The runner on any answer of the transport. *)
Lemma http_outcome w :
  ∃ w', exports.http w = (Ok tt, w')
    ∧ type (step_of w') = type (step_of w)
    ∧ request (step_of w') = request (step_of w)
    ∧ compiled (step_of w') = compiled (step_of w)
    ∧ built w' = built w ∧ page w' = page w
    ∧ if nullish (res (answer w))
      then promise w' = Pending
           ∧ response (step_of w') = response (step_of w)
           ∧ ∃ msg, uncaught w' = Some (TypeError msg)
      else promise w' = Resolved (response (step_of w'))
           ∧ response (step_of w') !! "completed" = Some (VBool true)
           ∧ uncaught w' = uncaught w.
Proof.
  unfold answer, exports.http, exports.http_callback.
  destruct (res (transport w (compiled (step_of w))))
    as [| |b|n|s|items|props]; run;
    try (by eexists; split_and!; eauto);
    destruct (truthy (error (transport w (compiled (step_of w))))); cbn;
    try (by eexists; split_and!; try done; by simplify_map_eq);
    destruct (is_num _ 200); cbn;
    by eexists; split_and!; try done; by simplify_map_eq.
Qed.

(** X3. The promise of [exports.http] is resolved exactly when the
    callback received a response other than [undefined] and [null]:
    then it is resolved with the record, [completed = true] in it.
    When the callback received no response, the promise is not
    resolved and no field of the record is written.  In either case
    the type, the request and the compiled request of the step are
    left alone, and so is the browser. *)
Theorem http_settles_iff_response w :
  ∃ w', exports.http w = (Ok tt, w')
    ∧ type (step_of w') = type (step_of w)
    ∧ request (step_of w') = request (step_of w)
    ∧ compiled (step_of w') = compiled (step_of w)
    ∧ built w' = built w ∧ page w' = page w
    ∧ if nullish (res (answer w))
      then (∀ r, promise w' ≠ Resolved r)
           ∧ response (step_of w') = response (step_of w)
      else promise w' = Resolved (response (step_of w'))
           ∧ response (step_of w') !! "completed" = Some (VBool true).
Proof.
  destruct (http_outcome w)
    as (w' & Hrun & Htype & Hrequest & Hcompiled & Hbuilt & Hpage & Hends).
  exists w'. split_and!; try done.
  destruct (nullish (res (answer w))).
  - destruct Hends as (Hpending & Hsame & _). split; [|done].
    intros r. by rewrite Hpending.
  - by destruct Hends as (Hresolved & Hcompleted & _).
Qed.

(** X4. The test on the status is [!== 200]: a response object whose
    [statusCode] is anything but the number 200 (a missing status
    code and the string ["200"] included) gets [error = true], while
    the promise still resolves. *)
Theorem http_error_unless_number_200 w props :
  res (answer w) = VObj props →
  is_num (default VUndefined (own props "statusCode")) 200 = false →
  ∃ w', exports.http w = (Ok tt, w')
    ∧ response (step_of w') !! "error" = Some (VBool true)
    ∧ response (step_of w') !! "status"
      = Some (default VUndefined (own props "statusCode"))
    ∧ promise w' = Resolved (response (step_of w')).
Proof.
  intros Hres Hstatus.
  destruct (http_received w props Hres) as (w' & Hrun & Hwritten & Hpromise & _).
  rewrite Hstatus, orb_true_r in Hwritten, Hpromise.
  exists w'. rewrite Hpromise, Hwritten. split_and!; try done;
    by simplify_map_eq.
Qed.

(** ** The OAuth runner *)

(** The only failure of the wait is the timeout. *)
Lemma poll_throw fuel : ∀ marker timeout elapsed b e b',
  poll fuel marker timeout elapsed b = Some (Throw e, b') →
  ∃ ms, timeout ≤ ms
        ∧ e = JsError ("Wait timed out after " ++ pretty ms ++ "ms")
        ∧ visited b' = visited b ∧ quits b' = quits b.
Proof.
  induction fuel as [|fuel IH]; intros marker timeout elapsed b e b' Hpoll;
    [done|].
  cbn [poll] in Hpoll. destruct (getTitle b) as [title b1] eqn:Hget.
  assert (b1 = (getTitle b).2) as Hb1 by by rewrite Hget.
  destruct (getTitle_keeps b) as (_ & _ & Hv & Hq & _).
  rewrite <- Hb1 in Hv, Hq.
  destruct (String.prefix marker title); [done|].
  destruct (timeout <=? elapsed + Z.pos (latency b)) eqn:Hnow.
  - apply Z.leb_le in Hnow. injection Hpoll as <- <-. eauto.
  - destruct (IH _ _ _ _ _ _ Hpoll) as (ms & Hms & -> & Hv' & Hq').
    exists ms. split_and!; congruence.
Qed.

(** A title that starts with the marker at the [n]-th query from now
    is found when that query begins before the timeout. *)
Lemma poll_finds n : ∀ fuel marker timeout elapsed b,
  (∀ k, (k < n)%nat →
        String.prefix marker (title_at b (queries b + k)) = false) →
  String.prefix marker (title_at b (queries b + n)) = true →
  elapsed + Z.of_nat n * Z.pos (latency b) < timeout →
  (0 < fuel)%nat →
  timeout - elapsed ≤ Z.of_nat fuel * Z.pos (latency b) →
  ∃ b', poll fuel marker timeout elapsed b = Some (Ok tt, b')
        ∧ queries b' = (queries b + n + 1)%nat
        ∧ title_at b' = title_at b ∧ visited b' = visited b
        ∧ quits b' = quits b.
Proof.
  induction n as [|n IH]; intros fuel marker timeout elapsed b Hbefore Hhit
    Hintime Hfuel Hleft;
    (destruct fuel as [|fuel]; [lia|]); cbn [poll];
    destruct (getTitle b) as [title b1] eqn:Hget;
    assert (b1 = (getTitle b).2) as Hb1 by (by rewrite Hget);
    assert (title = title_at b (queries b)) as -> by (by injection Hget);
    destruct (getTitle_keeps b) as (Ht & Hl & Hv & Hq & Hn);
    rewrite <- Hb1 in Ht, Hl, Hv, Hq, Hn.
  - rewrite Nat.add_0_r in Hhit. rewrite Hhit.
    exists b1. split_and!; try done. lia.
  - specialize (Hbefore 0%nat) as Hfirst. rewrite Nat.add_0_r in Hfirst.
    rewrite Hfirst by lia.
    destruct (timeout <=? elapsed + Z.pos (latency b)) eqn:Hnow;
      [apply Z.leb_le in Hnow; lia|].
    apply Z.leb_gt in Hnow.
    destruct (IH fuel marker timeout (elapsed + Z.pos (latency b)) b1)
      as (b' & -> & Hn' & Ht' & Hv' & Hq').
    + intros k Hk. rewrite Ht, Hn.
      replace (S (queries b) + k)%nat with (queries b + S k)%nat by lia.
      apply Hbefore. lia.
    + rewrite Ht, Hn.
      by replace (S (queries b) + n)%nat with (queries b + S n)%nat by lia.
    + rewrite Hl. lia.
    + nia.
    + rewrite Hl. nia.
    + exists b'. split_and!; try congruence. lia.
Qed.

(** A title that does not start with the marker at any query that
    begins before the timeout makes the wait fail, whatever the
    browser would show later. *)
Lemma poll_misses fuel : ∀ marker timeout elapsed b,
  (∀ k, elapsed + Z.of_nat k * Z.pos (latency b) < timeout →
        String.prefix marker (title_at b (queries b + k)) = false) →
  elapsed < timeout →
  (0 < fuel)%nat →
  timeout - elapsed ≤ Z.of_nat fuel * Z.pos (latency b) →
  ∃ ms b', poll fuel marker timeout elapsed b
           = Some (Throw (JsError ("Wait timed out after " ++ pretty ms ++ "ms")),
                   b')
           ∧ timeout ≤ ms ∧ ms < timeout + Z.pos (latency b)
           ∧ visited b' = visited b ∧ quits b' = quits b.
Proof.
  induction fuel as [|fuel IH]; intros marker timeout elapsed b Hmiss Hnow
    Hfuel Hleft; [lia|].
  cbn [poll]. destruct (getTitle b) as [title b1] eqn:Hget.
  assert (b1 = (getTitle b).2) as Hb1 by by rewrite Hget.
  assert (title = title_at b (queries b)) as -> by by injection Hget.
  destruct (getTitle_keeps b) as (Ht & Hl & Hv & Hq & Hn).
  rewrite <- Hb1 in Ht, Hl, Hv, Hq, Hn.
  specialize (Hmiss 0%nat) as Hfirst. rewrite Nat.add_0_r in Hfirst.
  rewrite Hfirst by lia.
  destruct (timeout <=? elapsed + Z.pos (latency b)) eqn:Hlate.
  - apply Z.leb_le in Hlate.
    exists (elapsed + Z.pos (latency b)), b1. split_and!; try done; lia.
  - apply Z.leb_gt in Hlate.
    destruct (IH marker timeout (elapsed + Z.pos (latency b)) b1)
      as (ms & b' & -> & Hms & Hms' & Hv' & Hq').
    + intros k Hk. rewrite Ht, Hn, Hl in *.
      replace (S (queries b) + k)%nat with (queries b + S k)%nat by lia.
      apply Hmiss. lia.
    + done.
    + nia.
    + rewrite Hl. nia.
    + exists ms, b'. rewrite Hl in Hms'. split_and!; congruence.
Qed.

(** When the preparations throw, it is a [TypeError], and at most the
    session has been built. *)
Lemma prepare_throw `{Host} w e w' :
  exports.prepare w = (Throw e, w') →
  (∃ msg, e = TypeError msg) ∧ (w' = w ∨ ∃ s, w' = with_built s w).
Proof.
  unfold exports.prepare, exports.driver. run.
  destruct (compiled (step_of w)) as [| |?|?|?|?|props] eqn:Hroot; cbn;
    try (intros [= <- <-]; by eauto);
    match goal with
    | |- context [member ?d "browser"] =>
        destruct d; cbn; try (intros [= <- <-]; by eauto)
    end;
    case_bool_decide; cbn; try (intros [= <- <-]; by eauto);
    try done;
    match goal with
    | |- context [exports.url_parse ?u] =>
        destruct u; cbn; try done; intros [= <- <-]; by eauto
    end.
Qed.

(** X5. [exports.oauthAuthorize] never rejects its promise, and it
    resolves it only at the end of a complete run.  When it throws,
    no promise exists yet, nothing is written and the session has been
    built at most.  When it returns, it has built one session, and if
    its promise is resolved then it is resolved with the record,
    [completed] and [code] have been written (and no other field), and
    [quit] has been invoked once. *)
Theorem oauth_resolves_only_when_done `{Url} `{Host} w :
  match exports.oauthAuthorize w with
  | None => False
  | Some (Throw e, w') => w' = w ∨ ∃ s, w' = with_built s w
  | Some (Ok _, w') =>
      (∃ s, built w' = (built w ++ [s])%list)
      ∧ (∀ e, promise w' ≠ Rejected e)
      ∧ ∀ r, promise w' = Resolved r →
             r = response (step_of w')
             ∧ (∃ code,
                  response (step_of w')
                  = <["code" := code]>
                      (<["completed" := VBool true]> (response (step_of w))))
             ∧ quits (page w') = S (quits (page w))
  end.
Proof.
  destruct (exports.prepare w) as [[[data endpoint]|e] w1] eqn:Hprepare.
  - destruct (prepare_ok _ _ _ _ Hprepare) as (_ & Hdata & _ & s & Hw1).
    destruct (member_defined data "redirect_uri" Hdata) as [marker Hmarker].
    destruct (wait_ends marker 60000 (get (href endpoint) (page w)))
      as ([[]|e] & b & Hwait & _); [done| |].
    + destruct (oauth_after_match _ _ _ _ _ _ Hprepare Hmarker Hwait)
        as (w' & -> & Hwritten & Hpromise & Huncaught & Hbuilt & Hquits).
      split; [exists s; by rewrite Hbuilt, Hw1|]. rewrite Hpromise.
      split; [done|]. intros r [= <-]. split_and!; eauto.
    + subst w1. unfold exports.oauthAuthorize. rewrite Hprepare.
      cbn [run_frame]. unfold exports.wait_task at 1. rewrite Hmarker.
      cbn [page with_page with_promise with_built]. rewrite Hwait. cbn.
      split; [by eauto|]. by split.
  - unfold exports.oauthAuthorize. rewrite Hprepare.
    by apply prepare_throw in Hprepare as [_ ?].
Qed.

(** X6. A browser name under which [webdriver.Capabilities] offers
    nothing makes the flow throw a [TypeError] in [exports.driver]:
    no session is built, no page is visited, no field is written. *)
Theorem oauth_unknown_browser `{Url} `{Host} w data browser :
  member (compiled (step_of w)) "data" = Ok data →
  member data "browser" = Ok browser →
  to_str (if truthy browser then browser else VStr "phantomjs") ∉ capabilities →
  exports.oauthAuthorize w
  = Some (Throw (TypeError
            ("webdriver.Capabilities."
             ++ to_str (if truthy browser then browser else VStr "phantomjs")
             ++ " is not a function")), w).
Proof.
  intros Hdata Hbrowser Hunknown.
  unfold exports.oauthAuthorize, exports.prepare, exports.driver. run.
  rewrite Hdata. cbn. rewrite Hbrowser. cbn.
  by rewrite bool_decide_eq_false_2.
Qed.

Lemma oauth_unknown_browser_witness :
  exports.oauthAuthorize
    (fresh (authorize [ ("data", VObj [ ("browser", VStr "netscape") ]) ] ∅)
       refuses (still "Sign in" 500))
  = Some (Throw (TypeError
            ("webdriver.Capabilities."
             ++ to_str (if truthy (VStr "netscape") then VStr "netscape"
                        else VStr "phantomjs")
             ++ " is not a function")),
          fresh (authorize [ ("data", VObj [ ("browser", VStr "netscape") ]) ] ∅)
            refuses (still "Sign in" 500)).
Proof.
  apply (oauth_unknown_browser
           (fresh (authorize [ ("data", VObj [ ("browser", VStr "netscape") ]) ] ∅)
              refuses (still "Sign in" 500))
           (VObj [ ("browser", VStr "netscape") ]) (VStr "netscape"));
    [reflexivity|reflexivity|].
  apply (bool_decide_eq_false_1 _ (Decision0 := decide_rel _ _ _)).
  vm_compute. reflexivity.
Defined.

(** X7. The session is built before [step.compiled.url] is parsed.
    When that address is missing or is not a string, [url.parse]
    throws a [TypeError]: the session just built is left behind
    (nothing visits a page with it, nothing closes it) and no field of
    the response is written. *)
Theorem oauth_address_checked_after_session `{Url} `{Host} w data browser address :
  member (compiled (step_of w)) "data" = Ok data →
  member data "browser" = Ok browser →
  to_str (if truthy browser then browser else VStr "phantomjs") ∈ capabilities →
  member (compiled (step_of w)) "url" = Ok address →
  (∀ s, address ≠ VStr s) →
  ∃ s, exports.oauthAuthorize w
       = Some (Throw (TypeError "Parameter 'url' must be a string"),
               with_built s w)
       ∧ browserName s
         = to_str (if truthy browser then browser else VStr "phantomjs").
Proof.
  intros Hdata Hbrowser Hknown Haddress Hbad.
  unfold exports.oauthAuthorize, exports.prepare, exports.driver. run.
  rewrite Hdata. cbn. rewrite Hbrowser. cbn.
  rewrite bool_decide_eq_true_2 by done. cbn. rewrite Haddress. cbn.
  destruct address as [| |?|?|s|?|?]; cbn; try by eauto.
  by destruct (Hbad s).
Qed.

Lemma oauth_address_checked_after_session_witness :
  ∃ s, exports.oauthAuthorize
         (fresh {| type := VStr "OAUTH"; request := VUndefined;
                   compiled := VObj [ ("data", VObj []) ]; response := ∅ |}
            refuses (still "Sign in" 500))
       = Some (Throw (TypeError "Parameter 'url' must be a string"),
               with_built s
                 (fresh {| type := VStr "OAUTH"; request := VUndefined;
                           compiled := VObj [ ("data", VObj []) ];
                           response := ∅ |}
                    refuses (still "Sign in" 500)))
       ∧ browserName s
         = to_str (if truthy VUndefined then VUndefined else VStr "phantomjs").
Proof.
  apply (oauth_address_checked_after_session
           (fresh {| type := VStr "OAUTH"; request := VUndefined;
                     compiled := VObj [ ("data", VObj []) ]; response := ∅ |}
              refuses (still "Sign in" 500))
           (VObj []) VUndefined VUndefined);
    [reflexivity|reflexivity| |reflexivity|done].
  apply (bool_decide_eq_true_1 _ (Decision0 := decide_rel _ _ _)).
  vm_compute. reflexivity.
Defined.

(** The browser the flow leaves behind after a successful wait: one
    more title has been read and the session has been closed. *)
Lemma oauth_page_after_match `{Url} `{Host} w data endpoint w1 marker b w' :
  exports.prepare w = (Ok (data, endpoint), w1) →
  member data "redirect_uri" = Ok marker →
  wait marker 60000 (get (href endpoint) (page w)) = Some (Ok tt, b) →
  exports.oauthAuthorize w = Some (Ok tt, w') →
  queries (page w') = S (queries b).
Proof.
  intros Hprepare Hmarker Hwait.
  destruct (prepare_ok _ _ _ _ Hprepare) as (_ & _ & _ & s & ->).
  unfold exports.oauthAuthorize. rewrite Hprepare.
  cbn [run_frame]. unfold exports.wait_task at 1. rewrite Hmarker.
  cbn [page with_page with_promise with_built]. rewrite Hwait. cbn.
  unfold exports.title_callback. run.
  rewrite split_on_first. cbn. by intros [= <-].
Qed.

(** X8. A redirect is seen when it comes in time.  If the title first
    starts with the marker at the [n]-th query of the wait and that
    query begins before the 60000 milliseconds are over
    ([n * latency < 60000]), the flow resolves.  The code is not taken
    from the title that ended the wait but from the one the browser
    shows at the query after it. *)
Theorem oauth_redirect_in_time `{Url} `{Host} w data endpoint w1 marker n :
  exports.prepare w = (Ok (data, endpoint), w1) →
  member data "redirect_uri" = Ok marker →
  (∀ k, (k < n)%nat →
        String.prefix (to_str marker)
          (title_at (page w) (queries (page w) + k)) = false) →
  String.prefix (to_str marker) (title_at (page w) (queries (page w) + n))
  = true →
  Z.of_nat n * Z.pos (latency (page w)) < 60000 →
  ∃ w', exports.oauthAuthorize w = Some (Ok tt, w')
    ∧ promise w' = Resolved (response (step_of w'))
    ∧ response (step_of w') !! "code"
      = Some (query (before " "
                       (title_at (page w) (queries (page w) + n + 1)))
                "code")
    ∧ queries (page w') = (queries (page w) + n + 2)%nat
    ∧ quits (page w') = S (quits (page w)).
Proof.
  intros Hprepare Hmarker Hbefore Hhit Hintime.
  destruct (wait_fuel 60000 (latency (page w))) as [Hfuel Hleft]; [done|].
  destruct (poll_finds n (Z.to_nat (60000 / Z.pos (latency (page w))) + 1)
              (to_str marker) 60000 0
              (get (href endpoint) (page w)) Hbefore Hhit)
    as (b & Hwait & Hqueries & Htitle & _); [done|done|done|].
  destruct (oauth_after_match _ _ _ _ _ _ Hprepare Hmarker Hwait)
    as (w' & Hrun & Hwritten & Hpromise & _ & _ & Hquits).
  pose proof (oauth_page_after_match _ _ _ _ _ _ _ Hprepare Hmarker Hwait Hrun)
    as Hpage.
  cbn in Hqueries, Htitle. rewrite Htitle, Hqueries in Hwritten.
  exists w'. rewrite Hpage, Hpromise, Hwritten, Hqueries.
  split_and!; try done; try (by simplify_map_eq); lia.
Qed.

(** X9. A redirect that comes late is missed.  If the title starts
    with the marker at none of the queries that begin before the
    60000 milliseconds are over, the wait times out, whatever the
    browser shows afterwards: the promise stays pending, no field is
    written and the session is not closed.  The time in the error is
    the ceiling overshot by less than one query. *)
Theorem oauth_redirect_too_late `{Url} `{Host} w data endpoint w1 marker :
  exports.prepare w = (Ok (data, endpoint), w1) →
  member data "redirect_uri" = Ok marker →
  (∀ k, Z.of_nat k * Z.pos (latency (page w)) < 60000 →
        String.prefix (to_str marker)
          (title_at (page w) (queries (page w) + k)) = false) →
  ∃ w' ms, exports.oauthAuthorize w = Some (Ok tt, w')
    ∧ promise w' = Pending
    ∧ uncaught w' = Some (JsError ("Wait timed out after " ++ pretty ms ++ "ms"))
    ∧ 60000 ≤ ms < 60000 + Z.pos (latency (page w))
    ∧ response (step_of w') = response (step_of w)
    ∧ quits (page w') = quits (page w).
Proof.
  intros Hprepare Hmarker Hmiss.
  destruct (wait_fuel 60000 (latency (page w))) as [Hfuel Hleft]; [done|].
  destruct (poll_misses (Z.to_nat (60000 / Z.pos (latency (page w))) + 1)
              (to_str marker) 60000 0
              (get (href endpoint) (page w)))
    as (ms & b & Hwait & Hms & Hms' & _ & Hquits); [done|done|done|done|].
  destruct (prepare_ok _ _ _ _ Hprepare) as (_ & _ & _ & s & ->).
  unfold exports.oauthAuthorize. rewrite Hprepare.
  cbn [run_frame]. unfold exports.wait_task at 1. rewrite Hmarker.
  cbn [page with_page with_promise with_built].
  change (wait marker 60000 (get (href endpoint) (page w)))
    with (poll (Z.to_nat (60000 / Z.pos (latency (page w))) + 1)
            (to_str marker) 60000 0 (get (href endpoint) (page w))).
  rewrite Hwait. cbn. eexists. exists ms. split; [reflexivity|].
  cbn in Hms'. by split_and!.
Qed.

Lemma http_error_unless_number_200_witness :
  ∃ w',
    exports.http
      (fresh (ping ∅)
         (λ _, {| error := VNull; res := VObj [ ("statusCode", VStr "200") ];
                  body := VStr "pong" |})
         (still "" 1))
    = (Ok tt, w')
    ∧ response (step_of w') !! "error" = Some (VBool true)
    ∧ response (step_of w') !! "status"
      = Some (default VUndefined (own [ ("statusCode", VStr "200") ] "statusCode"))
    ∧ promise w' = Resolved (response (step_of w')).
Proof.
  apply (http_error_unless_number_200
           (fresh (ping ∅)
              (λ _, {| error := VNull; res := VObj [ ("statusCode", VStr "200") ];
                       body := VStr "pong" |})
              (still "" 1))
           [ ("statusCode", VStr "200") ]);
    reflexivity.
Defined.

Lemma oauth_redirect_in_time_witness :
  ∃ w',
    exports.oauthAuthorize
      (fresh (authorize callback_data ∅) refuses
         (redirects "https://cb?code=abc123 Page Title"))
    = Some (Ok tt, w')
    ∧ promise w' = Resolved (response (step_of w'))
    ∧ response (step_of w') !! "code"
      = Some (query (before " "
                       (title_at (redirects "https://cb?code=abc123 Page Title")
                          (0 + 3 + 1)))
                "code")
    ∧ queries (page w') = (0 + 3 + 2)%nat
    ∧ quits (page w') = 1%nat.
Proof.
  eapply (oauth_redirect_in_time
            (fresh (authorize callback_data ∅) refuses
               (redirects "https://cb?code=abc123 Page Title"))
            _ _ _ (VStr "https://cb") 3);
    [reflexivity|reflexivity| |reflexivity|reflexivity].
  intros k Hk. destruct k as [|[|[|k]]]; [reflexivity..|lia].
Defined.

Lemma oauth_redirect_too_late_witness :
  ∃ w' ms,
    exports.oauthAuthorize
      (fresh (authorize callback_data ∅) refuses
         {| title_at := λ n, if (n <? 3)%nat then "Sign in"
                             else "https://cb?code=abc123 Page Title";
            latency := 20000; queries := 0; visited := []; quits := 0 |})
    = Some (Ok tt, w')
    ∧ promise w' = Pending
    ∧ uncaught w' = Some (JsError ("Wait timed out after " ++ pretty ms ++ "ms"))
    ∧ 60000 ≤ ms < 60000 + 20000
    ∧ response (step_of w') = ∅
    ∧ quits (page w') = 0%nat.
Proof.
  eapply (oauth_redirect_too_late
            (fresh (authorize callback_data ∅) refuses
               {| title_at := λ n, if (n <? 3)%nat then "Sign in"
                                   else "https://cb?code=abc123 Page Title";
                  latency := 20000; queries := 0; visited := [];
                  quits := 0 |})
            _ _ _ (VStr "https://cb"));
    [reflexivity|reflexivity|].
  intros k Hk. cbn in Hk.
  destruct k as [|[|[|k]]]; [reflexivity..|lia].
Defined.

(** ** The dispatcher *)

(** An invariant of the world holds when the control flow has come to
    rest, if every command keeps it and reporting a failure keeps it. *)
Lemma run_frame_keeps (P : world → Prop) tasks : ∀ w w',
  Forall (λ t : task, ∀ w r w', P w → t w = Some (r, w') → P w') tasks →
  (∀ e w, P w → P (with_uncaught e w)) →
  P w → run_frame tasks w = Some w' → P w'.
Proof.
  induction tasks as [|t rest IH]; intros w w' Hall Hreport Hw Hrun.
  - by injection Hrun as <-.
  - apply Forall_cons in Hall as [Ht Hrest]. cbn in Hrun.
    destruct (t w) as [[[[]|e] w1]|] eqn:Htask; [| |done].
    + eapply IH; [done|done| |done]. by eapply Ht.
    + injection Hrun as <-. apply Hreport. by eapply Ht.
Qed.

(** The OAuth runner leaves the description of the step alone. *)
Lemma oauthAuthorize_keeps_description `{Url} `{Host} w r w' :
  exports.oauthAuthorize w = Some (r, w') →
  type (step_of w') = type (step_of w)
  ∧ request (step_of w') = request (step_of w)
  ∧ compiled (step_of w') = compiled (step_of w)
  ∧ transport w' = transport w.
Proof.
  unfold exports.oauthAuthorize.
  destruct (exports.prepare w) as [[[data endpoint]|e] w1] eqn:Hprepare.
  - destruct (prepare_ok _ _ _ _ Hprepare) as (_ & _ & _ & s & ->).
    destruct (run_frame _ _) as [w2|] eqn:Hframe; [|done].
    intros [= <- <-]. revert Hframe.
    apply (run_frame_keeps
             (λ w0, type (step_of w0) = type (step_of w)
                    ∧ request (step_of w0) = request (step_of w)
                    ∧ compiled (step_of w0) = compiled (step_of w)
                    ∧ transport w0 = transport w));
      [|done|done].
    repeat apply Forall_cons_2; [| | |done].
    + intros w0 r0 w3 Hw0. unfold exports.wait_task.
      destruct (member data "redirect_uri"); [|by intros [= <- <-]].
      destruct (wait _ _ _) as [[r1 b]|]; [|done]. by intros [= <- <-].
    + intros w0 r0 w3 Hw0. unfold exports.title_task, exports.title_callback.
      destruct (getTitle (page w0)) as [title b]. run.
      rewrite split_on_first. cbn. by intros [= <- <-].
    + intros [st settled un tr bu pg] r0 w3 Hw0. unfold exports.quit_task.
      run. by destruct settled; intros [= <- <-].
  - intros [= <- <-].
    by destruct (prepare_throw _ _ _ Hprepare) as [_ [->|[s ->]]].
Qed.

Lemma is_str_eq v s : is_str v s = true → v = VStr s.
Proof. destruct v; try done. cbn. by intros ->%String.eqb_eq. Qed.

(** X10. [exports.oauth] chooses by [step.request.action], the action
    as it was typed, not by the compiled request.  For an [OAUTH]
    step whose request compiles and whose action is anything but the
    string [authorize] (a template that would render to [authorize]
    included, a missing action included) the promise is rejected with
    "Unknown OAuth action: " and the action; apart from
    [step.compiled] nothing is touched. *)
Theorem step_oauth_reads_raw_action `{Engine} `{Url} `{Host}
    context w c action :
  is_str (type (step_of w)) "OAUTH" = true →
  compile context (request (step_of w)) = Ok c →
  member (request (step_of w)) "action" = Ok action →
  is_str action "authorize" = false →
  exports.step context w
  = Some (Ok tt,
          with_promise
            (Rejected (JsError ("Unknown OAuth action: " ++ to_str action)))
            (with_step (set_compiled c) w)).
Proof.
  intros Htype%is_str_eq Hc Haction Hother.
  unfold exports.step, exports.oauth. rewrite Hc. cbn. rewrite Htype. cbn.
  by rewrite Haction, Hother.
Qed.

Lemma step_oauth_reads_raw_action_witness :
  exports.step (VObj [ ("verb", VStr "authorize") ])
    (fresh {| type := VStr "OAUTH";
              request := VObj [ ("action", VStr "{{verb}}") ];
              compiled := VUndefined; response := ∅ |}
       refuses (still "Sign in" 500))
  = Some (Ok tt,
          with_promise
            (Rejected (JsError ("Unknown OAuth action: "
                                ++ to_str (VStr "{{verb}}"))))
            (with_step (set_compiled (VObj [ ("action", VStr "authorize") ]))
               (fresh {| type := VStr "OAUTH";
                         request := VObj [ ("action", VStr "{{verb}}") ];
                         compiled := VUndefined; response := ∅ |}
                  refuses (still "Sign in" 500)))).
Proof.
  apply (step_oauth_reads_raw_action (VObj [ ("verb", VStr "authorize") ])
           (fresh {| type := VStr "OAUTH";
                     request := VObj [ ("action", VStr "{{verb}}") ];
                     compiled := VUndefined; response := ∅ |}
              refuses (still "Sign in" 500)));
    reflexivity.
Defined.

(** X11. No execution edits the step's description: whatever the
    type, the outcome of the compilation, the transport's answer and
    the browser's behaviour, [step.type] and [step.request] are
    afterwards what they were, and [step.compiled] is the freshly
    compiled request (or, when the compilation threw, what it was). *)
Theorem step_keeps_description `{Engine} `{Url} `{Host} context w :
  match exports.step context w with
  | None => False
  | Some (r, w') =>
      type (step_of w') = type (step_of w)
      ∧ request (step_of w') = request (step_of w)
      ∧ compiled (step_of w')
        = match compile context (request (step_of w)) with
          | Ok c => c
          | Throw _ => compiled (step_of w)
          end
  end.
Proof.
  destruct (step_ends context w) as [[r w'] Hrun]. rewrite Hrun.
  revert Hrun. unfold exports.step, exports.oauth.
  destruct (compile context (request (step_of w))) as [c|e];
    [|by intros [= <- <-]].
  cbn. destruct (is_str (type (step_of w)) "HTTP").
  { destruct (http_outcome (with_step (set_compiled c) w))
      as (w1 & -> & Ht & Hr & Hc & _). by intros [= <- <-]. }
  destruct (is_str (type (step_of w)) "OAUTH"); [|by intros [= <- <-]].
  destruct (member (request (step_of w)) "action") as [action|];
    [|by intros [= <- <-]].
  destruct (is_str action "authorize"); [|by intros [= <- <-]].
  intros Hflow.
  by destruct (oauthAuthorize_keeps_description _ _ _ Hflow)
    as (-> & -> & -> & _).
Qed.

(** X12. For an [HTTP] step the transport is asked with the compiled
    request, not with the request as typed, and what it answers to
    that is what the record receives: the dispatcher stores the
    compiled request in [step.compiled] and the runner writes the
    status and the body of the answer and resolves. *)
Theorem step_http_sends_compiled_request `{Engine} `{Url} `{Host}
    context w c props code :
  is_str (type (step_of w)) "HTTP" = true →
  compile context (request (step_of w)) = Ok c →
  res (transport w c) = VObj props →
  own props "statusCode" = Some (VNum code) →
  ∃ w', exports.step context w = Some (Ok tt, w')
    ∧ compiled (step_of w') = c
    ∧ response (step_of w') !! "status" = Some (VNum code)
    ∧ response (step_of w') !! "body" = Some (body (transport w c))
    ∧ response (step_of w') !! "completed" = Some (VBool true)
    ∧ promise w' = Resolved (response (step_of w')).
Proof.
  intros Htype Hc Hres Hcode. unfold exports.step. rewrite Hc. cbn.
  rewrite Htype.
  destruct (http_outcome (with_step (set_compiled c) w))
    as (w1 & Hrun1 & _ & _ & Hcompiled & _).
  destruct (http_received (with_step (set_compiled c) w) props Hres)
    as (w' & Hrun & Hwritten & Hpromise & _).
  rewrite Hcode in Hwritten, Hpromise. cbn in Hwritten, Hpromise.
  exists w'. rewrite Hrun. rewrite Hrun in Hrun1. injection Hrun1 as <-.
  rewrite Hpromise, Hwritten. split_and!; try done;
    by destruct (truthy _ || _); simplify_map_eq.
Qed.

Lemma step_http_sends_compiled_request_witness :
  ∃ w',
    exports.step ada
      (fresh {| type := VStr "HTTP";
                request := VObj [ ("url", VStr "http://api/{{name}}") ];
                compiled := VUndefined; response := ∅ |}
         (λ asked,
            {| error := VNull;
               res := VObj [ ("statusCode",
                              VNum (if is_str (default VUndefined
                                                 (own (match asked with
                                                       | VObj props => props
                                                       | _ => []
                                                       end) "url"))
                                         "http://api/Ada"
                                    then 200 else 404)) ];
               body := asked |})
         (still "" 1))
    = Some (Ok tt, w')
    ∧ compiled (step_of w') = VObj [ ("url", VStr "http://api/Ada") ]
    ∧ response (step_of w') !! "status" = Some (VNum 200)
    ∧ response (step_of w') !! "body"
      = Some (VObj [ ("url", VStr "http://api/Ada") ])
    ∧ response (step_of w') !! "completed" = Some (VBool true)
    ∧ promise w' = Resolved (response (step_of w')).
Proof.
  apply (step_http_sends_compiled_request ada
           (fresh {| type := VStr "HTTP";
                     request := VObj [ ("url", VStr "http://api/{{name}}") ];
                     compiled := VUndefined; response := ∅ |}
              (λ asked,
                 {| error := VNull;
                    res := VObj [ ("statusCode",
                                   VNum (if is_str (default VUndefined
                                                      (own (match asked with
                                                            | VObj props => props
                                                            | _ => []
                                                            end) "url"))
                                              "http://api/Ada"
                                         then 200 else 404)) ];
                    body := asked |})
              (still "" 1))
           (VObj [ ("url", VStr "http://api/Ada") ])
           [ ("statusCode", VNum 200) ] 200);
    reflexivity.
Defined.

(** X13. An [OAUTH] step without a request ([undefined] or [null]) is
    not answered with a rejected promise: the compiler passes the
    missing request through, and the read of [step.request.action]
    throws a [TypeError] out of [exports.step]. *)
Theorem step_oauth_without_request `{Engine} `{Url} `{Host} context w :
  is_str (type (step_of w)) "OAUTH" = true →
  nullish (request (step_of w)) = true →
  exports.step context w
  = Some (Throw (TypeError ("Cannot read property 'action' of "
                            ++ describe (request (step_of w)))),
          with_step (set_compiled (request (step_of w))) w).
Proof.
  intros Htype%is_str_eq Hnone. unfold exports.step, exports.oauth.
  destruct (request (step_of w)) eqn:Hrequest; try done;
    cbn; rewrite Htype; cbn; by rewrite Hrequest.
Qed.

Lemma step_oauth_without_request_witness :
  exports.step ada
    (fresh {| type := VStr "OAUTH"; request := VUndefined;
              compiled := VUndefined; response := ∅ |}
       refuses (still "" 1))
  = Some (Throw (TypeError ("Cannot read property 'action' of "
                            ++ describe VUndefined)),
          with_step (set_compiled VUndefined)
            (fresh {| type := VStr "OAUTH"; request := VUndefined;
                      compiled := VUndefined; response := ∅ |}
               refuses (still "" 1))).
Proof.
  apply (step_oauth_without_request ada
           (fresh {| type := VStr "OAUTH"; request := VUndefined;
                     compiled := VUndefined; response := ∅ |}
              refuses (still "" 1)));
    reflexivity.
Defined.

(** ** The caller *)

(** X14. Executing a step of an unknown type from the terminal ends
    with the message line cleared and with the text of the rejection,
    "Unknown request type: " and the type, in [response.error]: a
    string, where the HTTP runner would put [true].  The other fields
    of the record are left alone. *)
Theorem execute_reports_unknown_type `{Engine} `{Url} `{Host}
    engine_text context t c :
  compile context (request (step_of (state t))) = Ok c →
  is_str (type (step_of (state t))) "HTTP" = false →
  is_str (type (step_of (state t))) "OAUTH" = false →
  ∃ t', execute engine_text context t = Some (Ok tt, t')
    ∧ message t' = ""
    ∧ response (step_of (state t'))
      = <["error" := VStr ("Unknown request type: "
                           ++ to_str (type (step_of (state t))))]>
          (response (step_of (state t))).
Proof.
  intros Hc Hhttp Hoauth. unfold execute, exports.step.
  rewrite Hc. cbn. rewrite Hhttp, Hoauth. cbn. eauto.
Qed.

Lemma execute_reports_unknown_type_witness :
  ∃ t',
    execute (λ template, "Parse error") ada
      {| message := "Loading ...";
         state := fresh (transfer "ftp://{{name}}/") refuses (still "" 1) |}
    = Some (Ok tt, t')
    ∧ message t' = ""
    ∧ response (step_of (state t'))
      = <["error" := VStr ("Unknown request type: " ++ to_str (VStr "FTP"))]>
          (response (transfer "ftp://{{name}}/")).
Proof.
  apply (execute_reports_unknown_type (λ template, "Parse error") ada
           {| message := "Loading ...";
              state := fresh (transfer "ftp://{{name}}/") refuses (still "" 1) |}
           (VObj [ ("url", VStr "ftp://Ada/") ]));
    reflexivity.
Defined.


